(** * tableau_hyper_union.py: schema unification and projection-query synthesis

    A shallow embedding of [tableau_hyper_union.py].  The script unions all
    [.hyper] files of a directory into one extract: it scans the catalog of
    every file into [output_dict] (schema > table > columns), creates one
    all-nullable target table per unified table and, for every source file,
    concatenates a [SELECT] text that projects the file's rows onto the
    unified columns.

    The Hyper engine itself is not part of the script.  Its catalog is
    modelled by the data a connection returns, an exception by an explicit
    failure flag, and the log by a list of records. *)

From Stdlib Require Import String Ascii List Bool Arith Lia.
Import ListNotations.
Open Scope string_scope.
Open Scope list_scope.

Infix "+++" := String.append (right associativity, at level 60).

(** ** Values of the Hyper API *)

Inductive Nullability := NULLABLE | NOT_NULLABLE.

Inductive SqlType :=
| BOOL | BIG_INT | SMALL_INT | INT | DOUBLE
| NUMERIC (precision scale : nat)
| TEXT | VARCHAR (max_length : nat) | CHAR (max_length : nat)
| JSON | BYTES | OID | DATE | TIME | TIMESTAMP | TIMESTAMP_TZ
| INTERVAL | GEOGRAPHY.

(** [THA.TableDefinition.Column]. *)
Record Column := mkColumn {
  name : string;
  type : SqlType;
  nullability : Nullability;
  collation : option string
}.

Definition Nullability_eqb (a b : Nullability) : bool :=
  match a, b with
  | NULLABLE, NULLABLE | NOT_NULLABLE, NOT_NULLABLE => true
  | _, _ => false
  end.

Definition SqlType_eqb (a b : SqlType) : bool :=
  match a, b with
  | BOOL, BOOL | BIG_INT, BIG_INT | SMALL_INT, SMALL_INT | INT, INT
  | DOUBLE, DOUBLE | TEXT, TEXT | JSON, JSON | BYTES, BYTES | OID, OID
  | DATE, DATE | TIME, TIME | TIMESTAMP, TIMESTAMP
  | TIMESTAMP_TZ, TIMESTAMP_TZ | INTERVAL, INTERVAL
  | GEOGRAPHY, GEOGRAPHY => true
  | NUMERIC p s, NUMERIC p' s' => Nat.eqb p p' && Nat.eqb s s'
  | VARCHAR n, VARCHAR n' | CHAR n, CHAR n' => Nat.eqb n n'
  | _, _ => false
  end.

Definition collation_eqb (a b : option string) : bool :=
  match a, b with
  | None, None => true
  | Some x, Some y => String.eqb x y
  | _, _ => false
  end.

(** The double quote, written by its code so that no literal has to hold it. *)
Definition dquote : ascii := ascii_of_nat 34.
Definition squote : ascii := "'"%char.

(** The escaped text of a name: the name between double quotes, every
    double quote inside it doubled.  No case folding takes place.  A
    [THA.Name] holds this text, and [THA.escape_name] returns it when it is
    given a [Name], as it is for [column.name], [schema.name] and
    [table.name]; a [Name] is never empty. *)
Fixpoint double_dquotes (s : string) : string :=
  match s with
  | EmptyString => EmptyString
  | String c rest =>
      if Ascii.eqb c dquote
      then String dquote (String dquote (double_dquotes rest))
      else String c (double_dquotes rest)
  end.

Definition escaped (n : string) : string :=
  String dquote (double_dquotes n +++ String dquote EmptyString).

(** [THA.escape_name] on a [str], as it is given
    [args.source_file_column_name]: the escaped text, and [ValueError] for
    the empty string ([None]). *)
Definition escape_name (identifier : string) : option string :=
  match identifier with
  | EmptyString => None
  | String _ _ => Some (escaped identifier)
  end.

(** ** Python dictionaries, in insertion order *)

Definition dict (V : Type) := list (string * V).

Fixpoint dict_get {V} (k : string) (d : dict V) : option V :=
  match d with
  | [] => None
  | (k', v) :: rest => if String.eqb k k' then Some v else dict_get k rest
  end.

Definition dict_mem {V} (k : string) (d : dict V) : bool :=
  match dict_get k d with Some _ => true | None => false end.

(** [d[k] = v] for a key that is already there. *)
Fixpoint dict_set {V} (k : string) (v : V) (d : dict V) : dict V :=
  match d with
  | [] => []
  | (k', v') :: rest =>
      if String.eqb k k' then (k', v) :: rest
      else (k', v') :: dict_set k v rest
  end.

(** [if k not in d: d[k] = v0]. *)
Definition dict_setdefault {V} (k : string) (v0 : V) (d : dict V) : dict V :=
  if dict_mem k d then d else d ++ [(k, v0)].

(** [x in xs] on a list of names. *)
Definition name_in (x : string) (xs : list string) : bool :=
  existsb (String.eqb x) xs.

(** ** The command line and the files on disk *)

Record Args := mkArgs {
  output_file : string;
  preserve_output_file : bool;
  source_file_column_name : string
}.

Definition TableDict := dict (list Column).
Definition OutputDict := dict TableDict.

(** What a connection to a file returns.  [None] as table definition stands
    for [get_table_definition] raising; [Unreadable] for [THA.Connection]
    raising. *)
Definition TableEntry := (string * option (list Column))%type.
Definition SchemaEntry := (string * list TableEntry)%type.
Definition Catalog := list SchemaEntry.

Inductive Database :=
| Unreadable
| Readable (catalog : Catalog).

(** The result of [glob.glob("*.hyper")] with what each file holds. *)
Definition Directory := list (string * Database).

(** ** The log *)

Inductive LogRecord :=
| ConflictWarning (hyper_file : string) (column existing : Column)
| ColumnExists
| ReadError (hyper_file : string).

(** ** The scan (lines 66-105) *)

(** Line 96. *)
Definition properties_differ (column existing : Column) : bool :=
  negb (SqlType_eqb (type column) (type existing))
  || negb (Nullability_eqb (nullability column) (nullability existing))
  || negb (collation_eqb (collation column) (collation existing)).

(** Lines 88-100, one column.  The flag is [false] when [[...][0]] on line 95
    raises [IndexError]. *)
Definition scan_column (hyper_file : string) (columns : list Column)
    (column : Column) : list Column * list LogRecord * bool :=
  if negb (name_in (name column) (map name columns))
  then (columns ++ [column], [], true)
  else
    match filter (fun column_output =>
                    String.eqb (name column_output) (name column)) columns with
    | [] => (columns, [], false)
    | matching_column_in_output_dict :: _ =>
        if properties_differ column matching_column_in_output_dict
        then (columns,
              [ConflictWarning hyper_file column matching_column_in_output_dict],
              true)
        else (columns, [ColumnExists], true)
    end.

Fixpoint scan_columns (hyper_file : string) (columns : list Column)
    (table_columns : list Column) : list Column * list LogRecord * bool :=
  match table_columns with
  | [] => (columns, [], true)
  | column :: rest =>
      match scan_column hyper_file columns column with
      | (columns1, log1, true) =>
          let '(columns2, log2, ok) := scan_columns hyper_file columns1 rest in
          (columns2, log1 ++ log2, ok)
      | failed => failed
      end
  end.

(** [output_dict[schema][table]], written back after the column loop. *)
Definition table_columns_of (table : string) (tables : TableDict) : list Column :=
  match dict_get table tables with Some columns => columns | None => [] end.

(** Lines 79-100, the tables of one schema. *)
Fixpoint scan_tables (hyper_file : string) (tables : TableDict)
    (entries : list TableEntry) : TableDict * list LogRecord * bool :=
  match entries with
  | [] => (tables, [], true)
  | (table, definition) :: rest =>
      let tables1 := dict_setdefault table [] tables in
      match definition with
      | None => (tables1, [], false)
      | Some table_columns =>
          match scan_columns hyper_file (table_columns_of table tables1)
                             table_columns with
          | (columns, log1, true) =>
              let '(tables2, log2, ok) :=
                scan_tables hyper_file (dict_set table columns tables1) rest in
              (tables2, log1 ++ log2, ok)
          | (columns, log1, false) =>
              (dict_set table columns tables1, log1, false)
          end
      end
  end.

Definition tables_of (schema : string) (output_dict : OutputDict) : TableDict :=
  match dict_get schema output_dict with Some tables => tables | None => [] end.

(** Lines 72-100, the schemas of one file. *)
Fixpoint scan_schemas (hyper_file : string) (output_dict : OutputDict)
    (catalog : Catalog) : OutputDict * list LogRecord * bool :=
  match catalog with
  | [] => (output_dict, [], true)
  | (schema, entries) :: rest =>
      let output_dict1 := dict_setdefault schema [] output_dict in
      match scan_tables hyper_file (tables_of schema output_dict1) entries with
      | (tables, log1, true) =>
          let '(output_dict2, log2, ok) :=
            scan_schemas hyper_file (dict_set schema tables output_dict1) rest in
          (output_dict2, log1 ++ log2, ok)
      | (tables, log1, false) =>
          (dict_set schema tables output_dict1, log1, false)
      end
  end.

(** Lines 67-103: one file, its exception caught and logged. *)
Definition scan_file (output_dict : OutputDict) (file : string * Database)
    : OutputDict * list LogRecord :=
  let (hyper_file, database) := file in
  match database with
  | Unreadable => (output_dict, [ReadError hyper_file])
  | Readable catalog =>
      match scan_schemas hyper_file output_dict catalog with
      | (output_dict1, log1, true) => (output_dict1, log1)
      | (output_dict1, log1, false) => (output_dict1, log1 ++ [ReadError hyper_file])
      end
  end.

(** Lines 66-105: the loop over the worklist. *)
Fixpoint scan (output_dict : OutputDict) (worklist : Directory)
    : OutputDict * list LogRecord :=
  match worklist with
  | [] => (output_dict, [])
  | file :: rest =>
      let (output_dict1, log1) := scan_file output_dict file in
      let (output_dict2, log2) := scan output_dict1 rest in
      (output_dict2, log1 ++ log2)
  end.

(** The unified columns of a (schema, table) pair. *)
Definition unified_columns (output_dict : OutputDict) (schema table : string)
    : list Column :=
  table_columns_of table (tables_of schema output_dict).

(** ** The worklist (lines 45-51) *)

(** [s.split(".")[-1]]: what follows the last dot. *)
Fixpoint last_segment_from (acc s : string) : string :=
  match s with
  | EmptyString => acc
  | String c rest =>
      if Ascii.eqb c "."%char then last_segment_from EmptyString rest
      else last_segment_from (acc +++ String c EmptyString) rest
  end.

Definition last_segment (s : string) : string := last_segment_from EmptyString s.

(** The file the run writes to: [output_file] of lines 47 and 49. *)
Definition run_output_file (args : Args) : string :=
  if preserve_output_file args
  then last_segment (output_file args) +++ "_temp.hyper"
  else output_file args.

Definition worklist (args : Args) (directory : Directory) : Directory :=
  filter (fun file => negb (String.eqb (fst file) (run_output_file args)))
         directory.

(** ** The target table (lines 121-135) *)

(** The condition of line 121.  Its second operand is evaluated only when
    the name is not empty, so that [escape_name] does not raise there. *)
Definition provenance_missing (args : Args) (columns : list Column) : bool :=
  (0 <? String.length (source_file_column_name args))%nat
  && match escape_name (source_file_column_name args) with
     | Some provenance =>
         (List.length
            (filter (fun column =>
                       String.eqb (escaped (name column)) provenance)
                    columns) <? 1)%nat
     | None => false
     end.

(** Line 122: the column appended to [output_dict[schema][table]]. *)
Definition provenance_column (args : Args) : Column :=
  mkColumn (source_file_column_name args) TEXT NOT_NULLABLE None.

Definition with_provenance (args : Args) (columns : list Column) : list Column :=
  if provenance_missing args columns
  then columns ++ [provenance_column args]
  else columns.

(** Lines 124-135: the columns of [table_definition]. *)
Definition table_definition (args : Args) (columns : list Column) : list Column :=
  map (fun column =>
         mkColumn (name column) (type column) NULLABLE (collation column))
      (with_provenance args columns).

(** ** The query text (lines 152-167) *)

(** [THA.escape_name(column.name) != THA.escape_name(args.source_file_column_name)]
    of lines 154 and 157; [None] when the second call raises. *)
Definition differs_from_provenance (args : Args) (column : Column)
    : option bool :=
  match escape_name (source_file_column_name args) with
  | Some provenance =>
      Some (negb (String.eqb (escaped (name column)) provenance))
  | None => None
  end.

(** Lines 157-159. *)
Definition null_item (args : Args) (column : Column) : option string :=
  match differs_from_provenance args column with
  | None => None
  | Some true => Some (" NULL as " +++ escaped (name column) +++ ",")
  | Some false => Some EmptyString
  end.

(** Lines 154-159: what one column of [table_definition] adds to [query];
    [None] when [escape_name] raises. *)
Definition select_item (args : Args) (source_columns : list Column)
    (column : Column) : option string :=
  if name_in (name column) (map name source_columns)
  then
    match differs_from_provenance args column with
    | None => None
    | Some true => Some (" " +++ escaped (name column) +++ ",")
    | Some false => null_item args column
    end
  else null_item args column.

(** Lines 160-164: what the file name adds to [query]. *)
Definition provenance_item (args : Args) (hyper_file : string) : option string :=
  if (0 <? String.length (source_file_column_name args))%nat
  then
    if negb (String.eqb hyper_file (output_file args))
    then Some (" '" +++ hyper_file +++ "' as "
               +++ source_file_column_name args +++ ",")
    else
      match escape_name (source_file_column_name args) with
      | Some provenance =>
          Some (" " +++ provenance +++ " as "
                +++ source_file_column_name args +++ ",")
      | None => None
      end
  else Some EmptyString.

(** [query[:-1]]. *)
Fixpoint drop_last (s : string) : string :=
  match s with
  | EmptyString => EmptyString
  | String c EmptyString => EmptyString
  | String c rest => String c (drop_last rest)
  end.

(** The loop of lines 153-159 over the columns of [table_definition].  The
    source table definition is asked for on line 154, once for every column;
    [None] stands for that call raising.  The result is [query] and whether
    the loop ran to its end: an exception leaves [query] as it is. *)
Fixpoint select_loop (args : Args) (source : option (list Column))
    (definition : list Column) (query : string) : string * bool :=
  match definition with
  | [] => (query, true)
  | column :: rest =>
      match source with
      | None => (query, false)
      | Some source_columns =>
          match select_item args source_columns column with
          | None => (query, false)
          | Some item => select_loop args source rest (query +++ item)
          end
      end
  end.

(** Lines 152-167: [query] when the [try] block is left, and whether it was
    left at its end ([true]) or through the handler of line 169. *)
Definition build_query (args : Args) (hyper_file schema table : string)
    (definition : list Column) (source : option (list Column))
    : string * bool :=
  match select_loop args source definition "SELECT " with
  | (query, false) => (query, false)
  | (query, true) =>
      match provenance_item args hyper_file with
      | None => (query, false)
      | Some item =>
          (drop_last (query +++ item)
           +++ " FROM " +++ escaped schema +++ "." +++ escaped table, true)
      end
  end.

(** The same select list, entry by entry: what lines 156, 159, 162 and 164
    append. *)
Inductive Projection :=
| ColumnRef (column_name : string)
| NullAs (column_name : string)
| LiteralAs (text alias : string)
| ReferenceAs (column_name alias : string).

Definition render (p : Projection) : string :=
  match p with
  | ColumnRef n => " " +++ escaped n +++ ","
  | NullAs n => " NULL as " +++ escaped n +++ ","
  | LiteralAs text alias => " '" +++ text +++ "' as " +++ alias +++ ","
  | ReferenceAs n alias => " " +++ escaped n +++ " as " +++ alias +++ ","
  end.

Definition null_projection (args : Args) (column : Column)
    : option (list Projection) :=
  match differs_from_provenance args column with
  | None => None
  | Some true => Some [NullAs (name column)]
  | Some false => Some []
  end.

Definition select_projection (args : Args) (source_columns : list Column)
    (column : Column) : option (list Projection) :=
  if name_in (name column) (map name source_columns)
  then
    match differs_from_provenance args column with
    | None => None
    | Some true => Some [ColumnRef (name column)]
    | Some false => null_projection args column
    end
  else null_projection args column.

Definition provenance_projection (args : Args) (hyper_file : string)
    : list Projection :=
  if (0 <? String.length (source_file_column_name args))%nat
  then
    if negb (String.eqb hyper_file (output_file args))
    then [LiteralAs hyper_file (source_file_column_name args)]
    else [ReferenceAs (source_file_column_name args) (source_file_column_name args)]
  else [].

(** The entries the loop of lines 153-159 has appended when it ends, and
    whether it ran to its end. *)
Fixpoint select_entries (args : Args) (source : option (list Column))
    (definition : list Column) (entries : list Projection)
    : list Projection * bool :=
  match definition with
  | [] => (entries, true)
  | column :: rest =>
      match source with
      | None => (entries, false)
      | Some source_columns =>
          match select_projection args source_columns column with
          | None => (entries, false)
          | Some more => select_entries args source rest (entries ++ more)
          end
      end
  end.

Definition built_entries (args : Args) (hyper_file : string)
    (definition : list Column) (source : option (list Column))
    : list Projection * bool :=
  match select_entries args source definition [] with
  | (entries, false) => (entries, false)
  | (entries, true) => (entries ++ provenance_projection args hyper_file, true)
  end.

(** The entries of the select list when lines 152-167 are left, for a
    source whose table definition can be read. *)
Definition projections (args : Args) (hyper_file : string)
    (definition source_columns : list Column) : list Projection :=
  fst (built_entries args hyper_file definition (Some source_columns)).

(** Whether lines 152-167 are left at their end, with a finished query. *)
Definition query_finished (args : Args) (hyper_file : string)
    (definition source_columns : list Column) : bool :=
  snd (built_entries args hyper_file definition (Some source_columns)).

(** The name under which a select entry comes out of the query. *)
Definition output_name (p : Projection) : string :=
  match p with
  | ColumnRef n | NullAs n => n
  | LiteralAs _ alias | ReferenceAs _ alias => alias
  end.

(** ** Creating the tables and moving the rows (lines 112-193) *)

(** What the second phase does, in order.  [CreateTable] stands for the call
    of line 137, whether it succeeds or not; [Connect] for the one of line
    147; [ConnectFailed] for the handler of line 191 after a connection that
    cannot be opened; [TableAbsent] for line 189.  [Ingest] says that lines
    152-167 ended with the finished query, which line 175 hands to the
    engine; [QueryFailed] that they ended in the handler of line 169 with
    [query] as given, which line 175 hands to the engine all the same.  What
    the engine does with the text, and what lines 176-193 do then, is not
    part of the events. *)
Inductive Event :=
| CreateTable (schema table : string) (definition : list Column)
| Connect (hyper_file : string)
| ConnectFailed (hyper_file : string)
| TableAbsent (hyper_file : string)
| QueryFailed (hyper_file query : string)
| Ingest (hyper_file query : string).

(** Lines 146-193 for one file of the worklist. *)
Definition move_file (args : Args) (schema table : string)
    (definition : list Column) (file : string * Database) : list Event :=
  let (hyper_file, database) := file in
  Connect hyper_file ::
  match database with
  | Unreadable => [ConnectFailed hyper_file]
  | Readable catalog =>
      match dict_get schema catalog with
      | None => [TableAbsent hyper_file]
      | Some entries =>
          match dict_get table entries with
          | None => [TableAbsent hyper_file]
          | Some source =>
              match build_query args hyper_file schema table definition
                                source with
              | (query, true) => [Ingest hyper_file query]
              | (query, false) => [QueryFailed hyper_file query]
              end
          end
      end
  end.

(** Lines 116-193 for one table. *)
Definition move_table (args : Args) (files : Directory) (schema : string)
    (entry : string * list Column) : list Event :=
  let (table, columns) := entry in
  let definition := table_definition args columns in
  CreateTable schema table definition
  :: flat_map (move_file args schema table definition) files.

(** Lines 112-193. *)
Definition move_rows (args : Args) (files : Directory)
    (output_dict : OutputDict) : list Event :=
  flat_map (fun schema_entry : string * TableDict =>
              flat_map (move_table args files (fst schema_entry))
                       (snd schema_entry))
           output_dict.

(** The whole run: the log of the scan and what the second phase does. *)
Definition run (args : Args) (directory : Directory)
    : OutputDict * list LogRecord * list Event :=
  let files := worklist args directory in
  let (output_dict, log) := scan [] files in
  (output_dict, log, move_rows args files output_dict).

(** ** Rows *)

Inductive Value :=
| NULL
| Text (s : string)
| Number (n : nat).

Fixpoint contains_squote (s : string) : bool :=
  match s with
  | EmptyString => false
  | String c rest => Ascii.eqb c squote || contains_squote rest
  end.

(** A letter, a digit or the underscore. *)
Definition identifier_char (c : ascii) : bool :=
  let n := nat_of_ascii c in
  (Nat.leb 65 n && Nat.leb n 90) || (Nat.leb 97 n && Nat.leb n 122)
  || (Nat.leb 48 n && Nat.leb n 57) || Nat.eqb n 95.

Definition digit_char (c : ascii) : bool :=
  let n := nat_of_ascii c in Nat.leb 48 n && Nat.leb n 57.

Fixpoint identifier_chars (s : string) : bool :=
  match s with
  | EmptyString => true
  | String c rest => identifier_char c && identifier_chars rest
  end.

(** A name that stands in a query text without quotes: letters, digits and
    underscores, not empty and not starting with a digit. *)
Definition plain_identifier (s : string) : bool :=
  match s with
  | EmptyString => false
  | String c rest => negb (digit_char c) && identifier_chars s
  end.

(** A select entry whose text cannot be read as anything but that entry: a
    literal without a single quote in it, an alias that is a plain
    identifier.  The escaped names of the other entries are harmless as they
    are. *)
Definition harmless (p : Projection) : bool :=
  match p with
  | ColumnRef _ | NullAs _ => true
  | LiteralAs text alias => negb (contains_squote text) && plain_identifier alias
  | ReferenceAs _ alias => plain_identifier alias
  end.

Fixpoint index_of (n : string) (names : list string) : option nat :=
  match names with
  | [] => None
  | n' :: rest =>
      if String.eqb n n' then Some 0 else option_map S (index_of n rest)
  end.

(** The value a row has in the column called [n]. *)
Definition column_value (names : list string) (row : list Value) (n : string)
    : option Value :=
  match index_of n names with
  | Some i => nth_error row i
  | None => None
  end.

(** Modelled from the spec: [execute_list_query], one select entry on one
    row of the source table.  A value is given for a harmless entry only;
    what the engine makes of the text of another entry is not modelled
    ([None], as for a column the source does not have). *)
Definition eval_projection (source_columns : list Column) (row : list Value)
    (p : Projection) : option Value :=
  if harmless p
  then
    match p with
    | ColumnRef n => column_value (map name source_columns) row n
    | NullAs _ => Some NULL
    | LiteralAs text _ => Some (Text text)
    | ReferenceAs n _ => column_value (map name source_columns) row n
    end
  else None.

Fixpoint eval_projections (source_columns : list Column) (row : list Value)
    (ps : list Projection) : option (list Value) :=
  match ps with
  | [] => Some []
  | p :: rest =>
      match eval_projection source_columns row p,
            eval_projections source_columns row rest with
      | Some v, Some vs => Some (v :: vs)
      | _, _ => None
      end
  end.

(** Whether the inserter takes a value for a column.  Of the pairings of
    value and column type only the plain ones are modelled: NULL in a
    nullable column, a text in a TEXT column, a whole number in an integer
    column. *)
Definition value_fits (v : Value) (column : Column) : bool :=
  match v with
  | NULL => Nullability_eqb (nullability column) NULLABLE
  | Text _ => SqlType_eqb (type column) TEXT
  | Number _ =>
      SqlType_eqb (type column) INT || SqlType_eqb (type column) BIG_INT
      || SqlType_eqb (type column) SMALL_INT
  end.

Fixpoint row_fits (definition : list Column) (row : list Value) : bool :=
  match definition, row with
  | [], [] => true
  | column :: columns, v :: vs => value_fits v column && row_fits columns vs
  | _, _ => false
  end.

(** Modelled from the spec: [Inserter.add_rows] binds the values of a row to
    the columns of the table definition by position; no row is written
    ([None]) when the values are not as many as the columns or one of them
    does not fit its column. *)
Definition inserted_value (definition : list Column) (row : list Value)
    (n : string) : option Value :=
  if row_fits definition row
  then column_value (map name definition) row n
  else None.

(** ** What the scan reads, as a sequence of readings *)

(** [d.get(k, d0)]. *)
Definition get_or {V} (d0 : V) (k : string) (d : dict V) : V :=
  match dict_get k d with Some v => v | None => d0 end.

(** [if k not in d: d[k] = d0] followed by [d[k] = f(d[k])]. *)
Definition dict_modify {V} (d0 : V) (k : string) (f : V -> V) (d : dict V)
    : dict V :=
  let d1 := dict_setdefault k d0 d in
  dict_set k (f (get_or d0 k d1)) d1.

(** Lines 91-92 as a function of the column list. *)
Definition add_column (columns : list Column) (column : Column) : list Column :=
  if name_in (name column) (map name columns) then columns
  else columns ++ [column].

(** What the loops of lines 72-100 get from a connection, in order. *)
Inductive Reading :=
| SchemaSeen (schema : string)
| TableSeen (schema table : string)
| ColumnSeen (schema table : string) (column : Column).

Fixpoint table_readings (schema : string) (entries : list TableEntry)
    : list Reading * bool :=
  match entries with
  | [] => ([], true)
  | (table, None) :: _ => ([TableSeen schema table], false)
  | (table, Some table_columns) :: rest =>
      let (readings, ok) := table_readings schema rest in
      (TableSeen schema table
         :: map (ColumnSeen schema table) table_columns ++ readings, ok)
  end.

Fixpoint catalog_readings (catalog : Catalog) : list Reading :=
  match catalog with
  | [] => []
  | (schema, entries) :: rest =>
      let (readings, ok) := table_readings schema entries in
      SchemaSeen schema
        :: readings ++ (if ok then catalog_readings rest else [])
  end.

(** The readings of a file end where an exception ends its scan. *)
Definition readings (database : Database) : list Reading :=
  match database with
  | Unreadable => []
  | Readable catalog => catalog_readings catalog
  end.

(** The effect of one reading on [output_dict]. *)
Definition absorb (output_dict : OutputDict) (r : Reading) : OutputDict :=
  match r with
  | SchemaSeen schema => dict_modify [] schema (fun tables => tables) output_dict
  | TableSeen schema table =>
      dict_modify [] schema
        (dict_modify [] table (fun columns => columns)) output_dict
  | ColumnSeen schema table column =>
      dict_modify [] schema
        (dict_modify [] table (fun columns => add_column columns column))
        output_dict
  end.

(** A reading that would change nothing. *)
Definition absorbed (output_dict : OutputDict) (r : Reading) : Prop :=
  match r with
  | SchemaSeen schema => dict_mem schema output_dict = true
  | TableSeen schema table =>
      dict_mem schema output_dict = true
      /\ dict_mem table (tables_of schema output_dict) = true
  | ColumnSeen schema table column =>
      dict_mem schema output_dict = true
      /\ dict_mem table (tables_of schema output_dict) = true
      /\ name_in (name column)
           (map name (unified_columns output_dict schema table)) = true
  end.

(** ** Notions used by the statements *)

(** The (type, nullability, collation) triple of line 96. *)
Definition properties (column : Column)
    : SqlType * Nullability * option string :=
  (type column, nullability column, collation column).

(** A file is fully readable when every table definition of its catalog is. *)
Definition fully_readable (catalog : Catalog) : Prop :=
  Forall (fun schema_entry : SchemaEntry =>
            Forall (fun entry : TableEntry => snd entry <> None)
                   (snd schema_entry))
         catalog.

(** A column of a table is seen in a file when the scan reads it there. *)
Definition seen_in (file : string * Database) (schema table : string)
    (column : Column) : Prop :=
  In (ColumnSeen schema table column) (readings (snd file)).

(** A file that holds one table of one column. *)
Definition one_column_file (schema table : string) (column : Column)
    : Database :=
  Readable [(schema, [(table, Some [column])])].

(** The select list as one text. *)
Fixpoint concat_render (ps : list Projection) : string :=
  match ps with
  | [] => EmptyString
  | p :: rest => render p +++ concat_render rest
  end.

(** The value a row of a source file has in column [n] of the output table,
    once the query has run and the inserter has written its result. *)
Definition ingested_value (args : Args) (hyper_file : string)
    (definition source_columns : list Column) (row : list Value) (n : string)
    : option Value :=
  if query_finished args hyper_file definition source_columns
  then
    match eval_projections source_columns row
            (projections args hyper_file definition source_columns) with
    | Some values => inserted_value definition values n
    | None => None
    end
  else None.

(** The definitions of the tables the second phase creates. *)
Fixpoint created_definitions (events : list Event) : list (list Column) :=
  match events with
  | [] => []
  | CreateTable _ _ definition :: rest => definition :: created_definitions rest
  | _ :: rest => created_definitions rest
  end.

(** Whether the scan of a catalog runs to its end. *)
Definition catalog_ok (catalog : Catalog) : bool :=
  forallb (fun schema_entry : SchemaEntry =>
             snd (table_readings (fst schema_entry) (snd schema_entry)))
          catalog.

(** Whether the scan of a file ends in the [except] branch of line 101. *)
Definition scan_fails (database : Database) : bool :=
  match database with
  | Unreadable => true
  | Readable catalog => negb (catalog_ok catalog)
  end.

(** The three results of the run. *)
Definition unified_schema (args : Args) (directory : Directory) : OutputDict :=
  fst (fst (run args directory)).

Definition run_log (args : Args) (directory : Directory) : list LogRecord :=
  snd (fst (run args directory)).

Definition run_events (args : Args) (directory : Directory) : list Event :=
  snd (run args directory).

(** "A file whose scan failed is not attempted again": no connection of the
    second phase names a file of which the scan logged an error. *)
Definition failed_files_skipped (args : Args) (directory : Directory) : Prop :=
  forall hyper_file,
    In (ReadError hyper_file) (run_log args directory) ->
    ~ In (Connect hyper_file) (run_events args directory).


(** The text of a query over harmless select entries: what lines 152-167
    build when no name in the query can be misread.  A text that is, letter
    by letter, such a text is as well formed as any query of the script. *)
Definition reads_as (query schema table : string) (ps : list Projection)
    : Prop :=
  forallb harmless ps = true
  /\ query = drop_last ("SELECT " +++ concat_render ps)
             +++ " FROM " +++ escaped schema +++ "." +++ escaped table.

(** "Every file name with a single quote gives a malformed query".  A
    malformed text is not the text of a well-formed query, and the queries
    over harmless entries are well formed: so the finished text of an
    ordinary file with such a name is the text of no query over harmless
    entries. *)
Definition quoted_names_malformed : Prop :=
  forall args hyper_file schema table definition source_columns query,
    contains_squote hyper_file = true ->
    hyper_file <> output_file args ->
    build_query args hyper_file schema table definition (Some source_columns)
    = (query, true) ->
    forall ps, ~ reads_as query schema table ps.

(** "Every provenance column name that needs quoting gives a malformed
    query": likewise for a name that is not empty and not a plain
    identifier. *)
Definition unplain_names_malformed : Prop :=
  forall args hyper_file schema table definition source_columns query,
    source_file_column_name args <> EmptyString ->
    plain_identifier (source_file_column_name args) = false ->
    hyper_file <> output_file args ->
    build_query args hyper_file schema table definition (Some source_columns)
    = (query, true) ->
    forall ps, ~ reads_as query schema table ps.

(** ** Example inputs *)

Definition id_column : Column := mkColumn "id" INT NOT_NULLABLE None.
Definition source_file_column : Column := mkColumn "source_file" TEXT NULLABLE None.
Definition region_column : Column := mkColumn "region" TEXT NULLABLE None.

(** Append mode: [union.hyper] is the output of an earlier run over a table
    of one column [id]; [west.hyper] is new and has a column more. *)
Definition append_args : Args := mkArgs "union.hyper" true "source_file".

Definition append_directory : Directory :=
  [("union.hyper",
    Readable [("public", [("sales", Some [id_column; source_file_column])])]);
   ("west.hyper",
    Readable [("public", [("sales", Some [id_column; region_column])])])].

(** The table definition of [public.sales] in that run. *)
Definition append_definition : list Column :=
  table_definition append_args
    (unified_columns (unified_schema append_args append_directory)
                     "public" "sales").

(** One row of each file. *)
Definition union_row : list Value := [Number 1; Text "a.hyper"].
Definition west_row : list Value := [Number 7; Text "EU"].

(** A file name with single quotes, a provenance name that needs quoting,
    and the provenance column switched off. *)
Definition quoted_file : string := "a' as x, 'b.hyper".
Definition odd_name_args : Args := mkArgs "union.hyper" false "a, 'b' as c".
Definition off_args : Args := mkArgs "union.hyper" false EmptyString.

(** A directory with a file that cannot be opened. *)
Definition default_args : Args := mkArgs "union.hyper" false "source_file".

Definition broken_directory : Directory :=
  [("bad.hyper", Unreadable);
   ("a.hyper", Readable [("public", [("sales", Some [id_column])])])].

(** ** Further notions: the second phase and the worklist *)

(** The column lists of [output_dict], in the order the loops of lines 112
    and 116 meet them. *)
Definition unified_tables (output_dict : OutputDict) : list (list Column) :=
  flat_map (fun schema_entry : string * TableDict =>
              map snd (snd schema_entry))
           output_dict.

Definition is_connect (e : Event) : bool :=
  match e with Connect _ => true | _ => false end.

(** How many connections to source files the second phase opens. *)
Definition connections (events : list Event) : nat :=
  List.length (filter is_connect events).

Fixpoint contains_dot (s : string) : bool :=
  match s with
  | EmptyString => false
  | String c rest => Ascii.eqb c "."%char || contains_dot rest
  end.

(** What a record of the scan of [hyper_file] may be before the handler of
    line 101: a conflict between two columns of one name that differ, or
    the note that the column exists. *)
Definition scan_record (hyper_file : string) (r : LogRecord) : Prop :=
  match r with
  | ConflictWarning hyper_file' column existing =>
      hyper_file' = hyper_file /\ name existing = name column
      /\ properties_differ column existing = true
  | ColumnExists => True
  | ReadError _ => False
  end.

(** No column name twice in any table of [output_dict]. *)
Definition names_unique (output_dict : OutputDict) : Prop :=
  Forall (fun schema_entry : string * TableDict =>
            Forall (fun entry : string * list Column =>
                      NoDup (map name (snd entry)))
                   (snd schema_entry))
         output_dict.

(** Two files that disagree on the type of [amount]. *)
Definition amount_double : Column := mkColumn "amount" DOUBLE NULLABLE None.
Definition amount_text : Column := mkColumn "amount" TEXT NULLABLE None.

Definition conflict_directory : Directory :=
  [("a.hyper", one_column_file "public" "sales" amount_double);
   ("b.hyper", one_column_file "public" "sales" amount_text)].

(** A file whose table definition cannot be read. *)
Definition half_read_directory : Directory :=
  [("a.hyper", Readable [("public", [("sales", None)])])].

(** ** Further notions: the log by readings *)

(** The records one reading of the scan of [hyper_file] adds to the log:
    those of lines 91-100 for a column, none for a schema or a table. *)
Definition reading_log (hyper_file : string) (output_dict : OutputDict)
    (r : Reading) : list LogRecord :=
  match r with
  | ColumnSeen schema table column =>
      snd (fst (scan_column hyper_file
                            (unified_columns output_dict schema table) column))
  | _ => []
  end.

Fixpoint readings_log (hyper_file : string) (output_dict : OutputDict)
    (rs : list Reading) : list LogRecord :=
  match rs with
  | [] => []
  | r :: rest =>
      reading_log hyper_file output_dict r
      ++ readings_log hyper_file (absorb output_dict r) rest
  end.

(** ** Further notions: the select entries *)

(** The entries a column of the table definition adds to the select list
    when the provenance name is not empty: none for the column called like
    the provenance column, a reference for a column the source has, a NULL
    placeholder for another. *)
Definition column_entry (args : Args) (source_columns : list Column)
    (column : Column) : list Projection :=
  if String.eqb (name column) (source_file_column_name args) then []
  else if name_in (name column) (map name source_columns)
       then [ColumnRef (name column)]
       else [NullAs (name column)].


(** ** Lemmas on dictionaries *)

Section Dict.
Context {V : Type}.
Variable d0 : V.

Lemma dict_mem_get (k : string) (d : dict V) :
  dict_mem k d = true -> dict_get k d = Some (get_or d0 k d).
Proof.
  unfold dict_mem, get_or. destruct (dict_get k d); [reflexivity|discriminate].
Qed.

Lemma dict_get_app (k : string) (d d' : dict V) :
  dict_get k (d ++ d') =
  match dict_get k d with Some v => Some v | None => dict_get k d' end.
Proof.
  induction d as [|[k' v] d IH]; simpl; [reflexivity|].
  destruct (String.eqb k k'); [reflexivity|exact IH].
Qed.

Lemma dict_get_setdefault (k k' : string) (v0 : V) (d : dict V) :
  dict_get k' (dict_setdefault k v0 d) =
  match dict_get k' d with
  | Some v => Some v
  | None => if String.eqb k' k then Some v0 else None
  end.
Proof.
  unfold dict_setdefault, dict_mem.
  destruct (dict_get k d) eqn:E.
  - destruct (dict_get k' d) eqn:E'; [reflexivity|].
    destruct (String.eqb_spec k' k); [congruence|reflexivity].
  - rewrite dict_get_app. simpl. destruct (dict_get k' d); reflexivity.
Qed.

Lemma dict_get_set (k k' : string) (v : V) (d : dict V) :
  dict_get k' (dict_set k v d) =
  if String.eqb k' k
  then (if dict_mem k d then Some v else None)
  else dict_get k' d.
Proof.
  unfold dict_mem.
  induction d as [|[k1 v1] d IH]; simpl.
  - destruct (String.eqb k' k); reflexivity.
  - destruct (String.eqb_spec k k1) as [->|Hk]; simpl.
    + destruct (String.eqb_spec k' k1); reflexivity.
    + destruct (String.eqb_spec k' k1) as [->|Hk'].
      * destruct (String.eqb_spec k1 k); [congruence|reflexivity].
      * exact IH.
Qed.

Lemma dict_set_same (k : string) (v : V) (d : dict V) :
  dict_get k d = Some v -> dict_set k v d = d.
Proof.
  induction d as [|[k1 v1] d IH]; simpl; [reflexivity|].
  destruct (String.eqb_spec k k1) as [->|Hk]; intros H.
  - congruence.
  - rewrite IH; auto.
Qed.

Lemma dict_set_set (k : string) (v v' : V) (d : dict V) :
  dict_set k v' (dict_set k v d) = dict_set k v' d.
Proof.
  induction d as [|[k1 v1] d IH]; simpl; [reflexivity|].
  destruct (String.eqb_spec k k1) as [->|Hk]; simpl.
  - rewrite String.eqb_refl. reflexivity.
  - destruct (String.eqb_spec k k1); [contradiction|]. rewrite IH. reflexivity.
Qed.

Lemma dict_setdefault_mem (k : string) (v0 : V) (d : dict V) :
  dict_mem k d = true -> dict_setdefault k v0 d = d.
Proof. unfold dict_setdefault. intros ->. reflexivity. Qed.

Lemma dict_mem_setdefault (k k' : string) (v0 : V) (d : dict V) :
  dict_mem k' (dict_setdefault k v0 d) = String.eqb k' k || dict_mem k' d.
Proof.
  unfold dict_mem at 1. rewrite dict_get_setdefault.
  unfold dict_mem. destruct (dict_get k' d) eqn:E.
  - rewrite orb_true_r. reflexivity.
  - destruct (String.eqb k' k) eqn:Ek; [reflexivity|].
    destruct (String.eqb_spec k' k); [discriminate|reflexivity].
Qed.

Lemma dict_mem_set (k k' : string) (v : V) (d : dict V) :
  dict_mem k' (dict_set k v d) = dict_mem k' d.
Proof.
  unfold dict_mem at 1. rewrite dict_get_set.
  destruct (String.eqb_spec k' k) as [->|Hk]; [|reflexivity].
  destruct (dict_mem k d); reflexivity.
Qed.

Lemma get_or_setdefault (k k' : string) (d : dict V) :
  get_or d0 k' (dict_setdefault k d0 d) = get_or d0 k' d.
Proof.
  unfold get_or. rewrite dict_get_setdefault.
  destruct (dict_get k' d); [reflexivity|].
  destruct (String.eqb k' k); reflexivity.
Qed.

Lemma dict_mem_modify (k k' : string) (f : V -> V) (d : dict V) :
  dict_mem k' (dict_modify d0 k f d) = String.eqb k' k || dict_mem k' d.
Proof. unfold dict_modify. rewrite dict_mem_set. apply dict_mem_setdefault. Qed.

Lemma get_or_modify (k k' : string) (f : V -> V) (d : dict V) :
  get_or d0 k' (dict_modify d0 k f d) =
  if String.eqb k' k then f (get_or d0 k d) else get_or d0 k' d.
Proof.
  unfold dict_modify. unfold get_or at 1. rewrite dict_get_set.
  rewrite dict_mem_setdefault, String.eqb_refl. simpl.
  rewrite get_or_setdefault.
  destruct (String.eqb k' k); [reflexivity|].
  fold (get_or d0 k' (dict_setdefault k d0 d)). apply get_or_setdefault.
Qed.

Lemma dict_modify_fixed (k : string) (f : V -> V) (d : dict V) :
  dict_mem k d = true -> f (get_or d0 k d) = get_or d0 k d ->
  dict_modify d0 k f d = d.
Proof.
  intros Hm Hf. unfold dict_modify.
  rewrite (dict_setdefault_mem _ _ _ Hm), Hf.
  apply dict_set_same, dict_mem_get, Hm.
Qed.

Lemma dict_modify_modify (k : string) (f g : V -> V) (d : dict V) :
  dict_modify d0 k g (dict_modify d0 k f d) =
  dict_modify d0 k (fun v => g (f v)) d.
Proof.
  assert (Hm : dict_mem k (dict_modify d0 k f d) = true).
  { rewrite dict_mem_modify, String.eqb_refl. reflexivity. }
  unfold dict_modify at 1.
  rewrite (dict_setdefault_mem _ _ _ Hm).
  rewrite get_or_modify, String.eqb_refl.
  unfold dict_modify. rewrite get_or_setdefault. apply dict_set_set.
Qed.

(** Writing a value back under a key that is there. *)
Lemma dict_set_modify (k : string) (v : V) (d : dict V) :
  dict_mem k d = true -> dict_set k v d = dict_modify d0 k (fun _ => v) d.
Proof.
  intros Hm. unfold dict_modify.
  rewrite (dict_setdefault_mem _ _ _ Hm). reflexivity.
Qed.
End Dict.

(** ** The scan is the absorption of its readings *)

Lemma name_in_In (x : string) (xs : list string) :
  name_in x xs = true <-> In x xs.
Proof.
  unfold name_in. rewrite existsb_exists. split.
  - intros [y [Hy He]]. apply String.eqb_eq in He. subst. exact Hy.
  - intros H. exists x. split; [exact H|apply String.eqb_refl].
Qed.

Lemma matching_column_exists (n : string) (columns : list Column) :
  name_in n (map name columns) = true ->
  filter (fun column_output => String.eqb (name column_output) n) columns <> [].
Proof.
  induction columns as [|c columns IH]; simpl; [discriminate|].
  rewrite (String.eqb_sym n (name c)).
  destruct (String.eqb (name c) n); simpl; [discriminate|exact IH].
Qed.

Lemma scan_column_effect (hyper_file : string) (columns : list Column)
    (column : Column) :
  exists log,
    scan_column hyper_file columns column = (add_column columns column, log, true).
Proof.
  unfold scan_column, add_column.
  destruct (name_in (name column) (map name columns)) eqn:E; simpl.
  - pose proof (matching_column_exists _ _ E) as Hne.
    destruct (filter _ columns) as [|m rest]; [contradiction|].
    destruct (properties_differ column m); eexists; reflexivity.
  - eexists; reflexivity.
Qed.

Lemma scan_columns_effect (hyper_file : string) (table_columns : list Column) :
  forall columns, exists log,
    scan_columns hyper_file columns table_columns
    = (fold_left add_column table_columns columns, log, true).
Proof.
  induction table_columns as [|c rest IH]; intros columns; simpl.
  - eexists; reflexivity.
  - destruct (scan_column_effect hyper_file columns c) as [l1 ->].
    destruct (IH (add_column columns c)) as [l2 ->].
    eexists; reflexivity.
Qed.

Lemma dict_modify_id {V} (d0 : V) (k : string) (d : dict V) :
  dict_modify d0 k (fun v => v) d = dict_setdefault k d0 d.
Proof.
  unfold dict_modify. apply (dict_set_same), (dict_mem_get d0).
  rewrite dict_mem_setdefault, String.eqb_refl. reflexivity.
Qed.

Lemma dict_modify_mem {V} (d0 : V) (k : string) (f : V -> V) (d : dict V) :
  dict_mem k d = true ->
  dict_modify d0 k f d = dict_set k (f (get_or d0 k d)) d.
Proof.
  intros Hm. unfold dict_modify. rewrite (dict_setdefault_mem _ _ _ Hm).
  reflexivity.
Qed.

Lemma tables_of_set (schema : string) (tables : TableDict)
    (output_dict : OutputDict) :
  dict_mem schema output_dict = true ->
  tables_of schema (dict_set schema tables output_dict) = tables.
Proof.
  intros Hm. unfold tables_of. rewrite dict_get_set, String.eqb_refl, Hm.
  reflexivity.
Qed.

Lemma table_columns_of_set (table : string) (columns : list Column)
    (tables : TableDict) :
  dict_mem table tables = true ->
  table_columns_of table (dict_set table columns tables) = columns.
Proof.
  intros Hm. unfold table_columns_of. rewrite dict_get_set, String.eqb_refl, Hm.
  reflexivity.
Qed.

Lemma absorb_table (schema table : string) (output_dict : OutputDict) :
  dict_mem schema output_dict = true ->
  absorb output_dict (TableSeen schema table)
  = dict_set schema (dict_setdefault table [] (tables_of schema output_dict))
             output_dict.
Proof.
  intros Hm. simpl. rewrite (dict_modify_mem _ _ _ _ Hm), dict_modify_id.
  reflexivity.
Qed.

Lemma absorb_column (schema table : string) (column : Column)
    (output_dict : OutputDict) :
  dict_mem schema output_dict = true ->
  dict_mem table (tables_of schema output_dict) = true ->
  absorb output_dict (ColumnSeen schema table column)
  = dict_set schema
      (dict_set table
         (add_column (unified_columns output_dict schema table) column)
         (tables_of schema output_dict))
      output_dict.
Proof.
  intros Hs Ht. simpl. rewrite (dict_modify_mem _ _ _ _ Hs).
  fold (tables_of schema output_dict).
  rewrite (dict_modify_mem _ _ _ _ Ht). reflexivity.
Qed.

Lemma absorb_columns (schema table : string) (table_columns : list Column) :
  forall output_dict,
    dict_mem schema output_dict = true ->
    dict_mem table (tables_of schema output_dict) = true ->
    fold_left absorb (map (ColumnSeen schema table) table_columns) output_dict
    = dict_set schema
        (dict_set table
           (fold_left add_column table_columns
                      (unified_columns output_dict schema table))
           (tables_of schema output_dict))
        output_dict.
Proof.
  induction table_columns as [|c rest IH]; intros od Hs Ht; cbn [fold_left map].
  - unfold unified_columns.
    rewrite (dict_set_same table), (dict_set_same schema); auto.
    + apply (dict_mem_get []), Hs.
    + apply (dict_mem_get []), Ht.
  - rewrite (absorb_column _ _ _ _ Hs Ht).
    rewrite IH.
    + unfold unified_columns.
      rewrite (tables_of_set _ _ _ Hs), (table_columns_of_set _ _ _ Ht).
      rewrite !dict_set_set. reflexivity.
    + rewrite dict_mem_set. exact Hs.
    + rewrite (tables_of_set _ _ _ Hs), dict_mem_set. exact Ht.
Qed.

Lemma scan_tables_readings (hyper_file schema : string)
    (entries : list TableEntry) :
  forall output_dict,
    dict_mem schema output_dict = true ->
    exists tables log,
      scan_tables hyper_file (tables_of schema output_dict) entries
      = (tables, log, snd (table_readings schema entries))
      /\ dict_set schema tables output_dict
         = fold_left absorb (fst (table_readings schema entries)) output_dict.
Proof.
  induction entries as [|[table [table_columns|]] rest IH]; intros od Hs.
  - exists (tables_of schema od), []. split; [reflexivity|].
    simpl. apply dict_set_same, (dict_mem_get []), Hs.
  - simpl scan_tables. simpl table_readings.
    destruct (table_readings schema rest) as [rs ok] eqn:Ers.
    set (tables1 := dict_setdefault table [] (tables_of schema od)).
    destruct (scan_columns_effect hyper_file table_columns
                (table_columns_of table tables1)) as [l1 ->].
    set (columns := fold_left add_column table_columns
                      (table_columns_of table tables1)).
    set (od1 := dict_set schema (dict_set table columns tables1) od).
    assert (Hs1 : dict_mem schema od1 = true)
      by (unfold od1; rewrite dict_mem_set; exact Hs).
    destruct (IH od1 Hs1) as [tables [l2 [Hscan Hset]]].
    unfold od1 at 1 in Hscan. rewrite (tables_of_set _ _ _ Hs) in Hscan.
    rewrite Hscan. exists tables, (l1 ++ l2). split; [reflexivity|].
    cbn [fst fold_left]. rewrite fold_left_app.
    assert (Hod1 : fold_left absorb (map (ColumnSeen schema table) table_columns)
                     (absorb od (TableSeen schema table)) = od1).
    { rewrite (absorb_table _ _ _ Hs). fold tables1.
      assert (Ht1 : dict_mem table tables1 = true)
        by (unfold tables1; rewrite dict_mem_setdefault, String.eqb_refl;
            reflexivity).
      rewrite absorb_columns.
      - unfold unified_columns. rewrite (tables_of_set _ _ _ Hs).
        rewrite dict_set_set. reflexivity.
      - rewrite dict_mem_set. exact Hs.
      - rewrite (tables_of_set _ _ _ Hs). exact Ht1. }
    cbn [fst] in Hset. rewrite Hod1, <- Hset. unfold od1.
    rewrite dict_set_set. reflexivity.
  - simpl. eexists _, []. split; [reflexivity|].
    rewrite (dict_modify_mem _ _ _ _ Hs), dict_modify_id. reflexivity.
Qed.

Lemma scan_schemas_readings (hyper_file : string) (catalog : Catalog) :
  forall output_dict, exists log,
    scan_schemas hyper_file output_dict catalog
    = (fold_left absorb (catalog_readings catalog) output_dict, log,
       catalog_ok catalog).
Proof.
  induction catalog as [|[schema entries] rest IH]; intros od.
  - exists []. reflexivity.
  - simpl scan_schemas. simpl catalog_readings. cbn [catalog_ok forallb fst snd].
    set (od1 := dict_setdefault schema [] od).
    assert (Hs1 : dict_mem schema od1 = true)
      by (unfold od1; rewrite dict_mem_setdefault, String.eqb_refl; reflexivity).
    destruct (scan_tables_readings hyper_file schema entries od1 Hs1)
      as [tables [l1 [Hscan Hset]]].
    rewrite Hscan.
    assert (Hod1 : absorb od (SchemaSeen schema) = od1)
      by (simpl; apply dict_modify_id).
    destruct (table_readings schema entries) as [rs ok] eqn:Ers.
    cbn [fst] in Hset. cbn [snd fold_left].
    rewrite fold_left_app, Hod1, <- Hset.
    destruct ok.
    + destruct (IH (dict_set schema tables od1)) as [l2 ->].
      eexists. reflexivity.
    + simpl. eexists. reflexivity.
Qed.

Lemma scan_file_readings (output_dict : OutputDict) (file : string * Database) :
  fst (scan_file output_dict file)
  = fold_left absorb (readings (snd file)) output_dict.
Proof.
  destruct file as [hyper_file [|catalog]]; simpl; [reflexivity|].
  destruct (scan_schemas_readings hyper_file catalog output_dict) as [log ->].
  destruct (catalog_ok catalog); reflexivity.
Qed.

Lemma scan_readings (worklist : Directory) :
  forall output_dict,
    fst (scan output_dict worklist)
    = fold_left absorb (flat_map (fun file => readings (snd file)) worklist)
                output_dict.
Proof.
  induction worklist as [|file rest IH]; intros od; simpl; [reflexivity|].
  rewrite fold_left_app, <- scan_file_readings.
  destruct (scan_file od file) as [od1 l1]. simpl.
  rewrite <- IH. destruct (scan od1 rest). reflexivity.
Qed.

(** ** The unified columns after a reading *)

Lemma unified_columns_get_or (output_dict : OutputDict) (schema table : string) :
  unified_columns output_dict schema table
  = get_or [] table (get_or [] schema output_dict).
Proof. reflexivity. Qed.

Lemma unified_columns_absorb (output_dict : OutputDict) (r : Reading)
    (schema table : string) :
  unified_columns (absorb output_dict r) schema table
  = match r with
    | ColumnSeen schema' table' column =>
        if String.eqb schema schema' && String.eqb table table'
        then add_column (unified_columns output_dict schema table) column
        else unified_columns output_dict schema table
    | _ => unified_columns output_dict schema table
    end.
Proof.
  rewrite !unified_columns_get_or.
  destruct r as [s'|s' t'|s' t' c]; simpl absorb; rewrite get_or_modify.
  - destruct (String.eqb_spec schema s') as [->|]; reflexivity.
  - destruct (String.eqb_spec schema s') as [->|]; [|reflexivity].
    rewrite get_or_modify.
    destruct (String.eqb_spec table t') as [->|]; reflexivity.
  - destruct (String.eqb_spec schema s') as [->|]; [|reflexivity].
    rewrite get_or_modify.
    destruct (String.eqb_spec table t') as [->|]; reflexivity.
Qed.

Lemma In_names_add_column (n : string) (columns : list Column) (column : Column) :
  In n (map name (add_column columns column))
  <-> In n (map name columns) \/ name column = n.
Proof.
  unfold add_column.
  destruct (name_in (name column) (map name columns)) eqn:E.
  - apply name_in_In in E. split; [auto|]. intros [H|<-]; assumption.
  - rewrite map_app, in_app_iff. simpl. tauto.
Qed.

Lemma NoDup_names_add_column (columns : list Column) (column : Column) :
  NoDup (map name columns) -> NoDup (map name (add_column columns column)).
Proof.
  intros Hnd. unfold add_column.
  destruct (name_in (name column) (map name columns)) eqn:E; [exact Hnd|].
  rewrite map_app. simpl.
  apply NoDup_app; [exact Hnd|repeat constructor; simpl; tauto|].
  intros x Hx [<-|[]]. apply name_in_In in Hx. congruence.
Qed.

Lemma unified_names_absorbed (schema table n : string) (rs : list Reading) :
  forall output_dict,
    In n (map name (unified_columns (fold_left absorb rs output_dict) schema table))
    <-> In n (map name (unified_columns output_dict schema table))
        \/ exists column, In (ColumnSeen schema table column) rs /\ name column = n.
Proof.
  induction rs as [|r rs IH]; intros od; cbn [fold_left].
  - split; [auto|]. intros [H|[c [[] _]]]. exact H.
  - rewrite IH, unified_columns_absorb.
    destruct r as [s'|s' t'|s' t' c].
    + split; (intros [H|[c [Hin Hn]]]; [auto|right; exists c; split; auto]).
      * right. exact Hin.
      * destruct Hin as [Hd|Hin]; [discriminate|exact Hin].
    + split; (intros [H|[c [Hin Hn]]]; [auto|right; exists c; split; auto]).
      * right. exact Hin.
      * destruct Hin as [Hd|Hin]; [discriminate|exact Hin].
    + destruct (String.eqb_spec schema s') as [->|Hs];
        [destruct (String.eqb_spec table t') as [->|Ht]|]; cbn [andb].
      * rewrite In_names_add_column. split.
        -- intros [[H|H]|[c' [Hin Hn]]]; [auto| |].
           ++ right. exists c. split; [left; reflexivity|exact H].
           ++ right. exists c'. split; [right; exact Hin|exact Hn].
        -- intros [H|[c' [[He|Hin] Hn]]]; [auto| |].
           ++ injection He as <-. auto.
           ++ right. exists c'. auto.
      * split; (intros [H|[c' [Hin Hn]]]; [auto|right; exists c'; split; auto]).
        -- right. exact Hin.
        -- destruct Hin as [He|Hin]; [congruence|exact Hin].
      * split; (intros [H|[c' [Hin Hn]]]; [auto|right; exists c'; split; auto]).
        -- right. exact Hin.
        -- destruct Hin as [He|Hin]; [congruence|exact Hin].
Qed.

Lemma unified_names_NoDup (schema table : string) (rs : list Reading) :
  forall output_dict,
    NoDup (map name (unified_columns output_dict schema table)) ->
    NoDup (map name (unified_columns (fold_left absorb rs output_dict)
                                     schema table)).
Proof.
  induction rs as [|r rs IH]; intros od Hnd; cbn [fold_left]; [exact Hnd|].
  apply IH. rewrite unified_columns_absorb.
  destruct r as [s'|s' t'|s' t' c]; try exact Hnd.
  destruct (String.eqb schema s' && String.eqb table t'); [|exact Hnd].
  apply NoDup_names_add_column, Hnd.
Qed.

(** The readings of a file all of whose table definitions can be read are
    the columns of its catalog. *)
Lemma table_readings_columns (schema table : string) (column : Column)
    (entries : list TableEntry) :
  In (ColumnSeen schema table column) (fst (table_readings schema entries)) ->
  exists table_columns,
    In (table, Some table_columns) entries /\ In column table_columns.
Proof.
  induction entries as [|[t [cols|]] rest IH]; simpl.
  - intros [].
  - destruct (table_readings schema rest) as [rs ok]. simpl.
    intros [Hd|Hin]; [discriminate|].
    apply in_app_or in Hin. destruct Hin as [Hin|Hin].
    + apply in_map_iff in Hin. destruct Hin as [c [He Hc]].
      injection He as <- <-. exists cols. auto.
    + destruct (IH Hin) as [tc [H1 H2]]. exists tc. auto.
  - intros [Hd|[]]. discriminate.
Qed.

Lemma table_readings_ok (schema : string) (entries : list TableEntry) :
  Forall (fun entry => snd entry <> None) entries ->
  snd (table_readings schema entries) = true.
Proof.
  induction entries as [|[t [cols|]] rest IH]; simpl; intros Hall.
  - reflexivity.
  - inversion Hall as [|? ? _ Hrest]; subst. specialize (IH Hrest).
    destruct (table_readings schema rest) as [rs ok]. exact IH.
  - inversion Hall as [|? ? Hn _]; subst. simpl in Hn. congruence.
Qed.

Lemma table_readings_readable (schema table : string) (column : Column)
    (entries : list TableEntry) (table_columns : list Column) :
  Forall (fun entry => snd entry <> None) entries ->
  In (table, Some table_columns) entries -> In column table_columns ->
  In (ColumnSeen schema table column) (fst (table_readings schema entries)).
Proof.
  induction entries as [|[t [cols|]] rest IH]; simpl; intros Hall Hin Hc.
  - destruct Hin.
  - inversion Hall as [|? ? _ Hrest]; subst.
    destruct (table_readings schema rest) as [rs ok] eqn:E. simpl in *.
    right. apply in_or_app.
    destruct Hin as [He|Hin].
    + injection He as <- <-. left. apply in_map. exact Hc.
    + right. apply (IH Hrest Hin Hc).
  - inversion Hall as [|? ? Hn _]; subst. simpl in Hn. congruence.
Qed.

Lemma table_readings_schema (schema schema' table : string) (column : Column)
    (entries : list TableEntry) :
  In (ColumnSeen schema' table column) (fst (table_readings schema entries)) ->
  schema' = schema.
Proof.
  induction entries as [|[t [cols|]] rest IH]; simpl.
  - intros [].
  - destruct (table_readings schema rest) as [rs ok]. simpl in *.
    intros [Hd|Hin]; [discriminate|].
    apply in_app_or in Hin. destruct Hin as [Hin|Hin]; [|auto].
    apply in_map_iff in Hin. destruct Hin as [c [He _]]. congruence.
  - intros [Hd|[]]. discriminate.
Qed.

Lemma catalog_readings_columns (schema table : string) (column : Column)
    (catalog : Catalog) :
  In (ColumnSeen schema table column) (catalog_readings catalog) ->
  exists entries table_columns,
    In (schema, entries) catalog /\ In (table, Some table_columns) entries
    /\ In column table_columns.
Proof.
  induction catalog as [|[s' entries] rest IH]; simpl; [intros []|].
  destruct (table_readings s' entries) as [rs ok] eqn:E.
  intros [Hd|Hin]; [discriminate|].
  apply in_app_or in Hin. destruct Hin as [Hin|Hin].
  - assert (Hin' : In (ColumnSeen schema table column)
                      (fst (table_readings s' entries)))
      by (rewrite E; exact Hin).
    pose proof (table_readings_schema _ _ _ _ _ Hin') as ->.
    destruct (table_readings_columns _ _ _ _ Hin') as [tc [H1 H2]].
    exists entries, tc. auto.
  - destruct ok; [|destruct Hin].
    destruct (IH Hin) as [en [tc [H1 [H2 H3]]]]. exists en, tc. auto.
Qed.

Lemma catalog_readings_readable (schema table : string) (column : Column)
    (catalog : Catalog) (entries : list TableEntry)
    (table_columns : list Column) :
  fully_readable catalog ->
  In (schema, entries) catalog -> In (table, Some table_columns) entries ->
  In column table_columns ->
  In (ColumnSeen schema table column) (catalog_readings catalog).
Proof.
  induction catalog as [|[s' en] rest IH]; simpl; intros Hall Hin Ht Hc.
  - destruct Hin.
  - inversion Hall as [|? ? Hhead Hrest]; subst. simpl in Hhead.
    pose proof (table_readings_ok s' en Hhead) as Hok.
    destruct (table_readings s' en) as [rs ok] eqn:E. simpl in Hok. subst ok.
    right. apply in_or_app. destruct Hin as [He|Hin].
    + injection He as <- <-. left.
      pose proof (table_readings_readable s' table column en
                    table_columns Hhead Ht Hc) as H.
      rewrite E in H. exact H.
    + right. apply (IH Hrest Hin Ht Hc).
Qed.

(** ** Equality of column properties *)

Lemma SqlType_eqb_eq (a b : SqlType) : SqlType_eqb a b = true <-> a = b.
Proof.
  split.
  - destruct a, b; simpl; try discriminate; try reflexivity; intros H.
    + apply andb_true_iff in H. destruct H as [H1 H2].
      apply Nat.eqb_eq in H1, H2. congruence.
    + apply Nat.eqb_eq in H. congruence.
    + apply Nat.eqb_eq in H. congruence.
  - intros <-. destruct a; simpl; rewrite ?Nat.eqb_refl; reflexivity.
Qed.

Lemma Nullability_eqb_eq (a b : Nullability) :
  Nullability_eqb a b = true <-> a = b.
Proof. destruct a, b; simpl; split; congruence. Qed.

Lemma collation_eqb_eq (a b : option string) :
  collation_eqb a b = true <-> a = b.
Proof.
  destruct a as [x|], b as [y|]; simpl; split; try congruence.
  - intros H. apply String.eqb_eq in H. congruence.
  - intros H. injection H as <-. apply String.eqb_refl.
Qed.

Lemma properties_differ_false (column existing : Column) :
  properties_differ column existing = false
  <-> properties column = properties existing.
Proof.
  unfold properties_differ, properties.
  rewrite !orb_false_iff, !negb_false_iff.
  rewrite SqlType_eqb_eq, Nullability_eqb_eq, collation_eqb_eq.
  split; [intros [[-> ->] ->]; reflexivity|].
  intros H. injection H as -> -> ->. auto.
Qed.

Lemma properties_differ_true (column existing : Column) :
  properties_differ column existing = true
  <-> properties column <> properties existing.
Proof.
  rewrite <- properties_differ_false.
  destruct (properties_differ column existing); split; congruence.
Qed.

Lemma properties_differ_sym (a b : Column) :
  properties_differ a b = properties_differ b a.
Proof.
  destruct (properties_differ a b) eqn:E; symmetry.
  - apply properties_differ_true. apply properties_differ_true in E. congruence.
  - apply properties_differ_false. apply properties_differ_false in E. congruence.
Qed.

(** ** Superset property *)

(** C1. After the scan of the whole worklist, the unified columns of a
    (schema, table) pair carry exactly the column names the scan read for
    that pair in the files of the worklist, each name once, and a name that
    is there after some files stays when more files are scanned. *)
Theorem unified_columns_superset (files : Directory) (schema table n : string) :
  (In n (map name (unified_columns (fst (scan [] files)) schema table))
   <-> exists file column,
         In file files /\ seen_in file schema table column /\ name column = n)
  /\ NoDup (map name (unified_columns (fst (scan [] files)) schema table))
  /\ forall more,
       In n (map name (unified_columns (fst (scan [] files)) schema table)) ->
       In n (map name
               (unified_columns (fst (scan [] (files ++ more))) schema table)).
Proof.
  repeat split.
  - rewrite scan_readings, unified_names_absorbed.
    intros [[]|[c [Hin Hn]]].
    apply in_flat_map in Hin. destruct Hin as [file [Hf Hr]].
    exists file, c. auto.
  - intros [file [c [Hf [Hr Hn]]]].
    rewrite scan_readings, unified_names_absorbed. right.
    exists c. split; [|exact Hn]. apply in_flat_map. exists file. auto.
  - rewrite scan_readings. apply unified_names_NoDup. constructor.
  - intros more H. rewrite scan_readings, flat_map_app, fold_left_app.
    rewrite unified_names_absorbed. left. rewrite <- scan_readings. exact H.
Qed.

(** ** First seen wins *)

(** C2. A column whose name is already in the unified table leaves the
    table as it is and raises nothing: equal properties log that the column
    exists, different ones log a conflict against the existing definition.
    Two files that disagree on a column are reported in either scan order;
    the order only decides whose definition stays. *)
Theorem first_seen_wins :
  (forall hyper_file columns column,
      name_in (name column) (map name columns) = true ->
      exists existing,
        In existing columns /\ name existing = name column
        /\ (properties column = properties existing ->
            scan_column hyper_file columns column
            = (columns, [ColumnExists], true))
        /\ (properties column <> properties existing ->
            scan_column hyper_file columns column
            = (columns, [ConflictWarning hyper_file column existing], true)))
  /\ (forall file_a file_b schema table a b,
         name a = name b -> properties a <> properties b ->
         scan [] [(file_a, one_column_file schema table a);
                  (file_b, one_column_file schema table b)]
         = ([(schema, [(table, [a])])], [ConflictWarning file_b b a])
         /\ scan [] [(file_b, one_column_file schema table b);
                     (file_a, one_column_file schema table a)]
            = ([(schema, [(table, [b])])], [ConflictWarning file_a a b])).
Proof.
  split.
  - intros hyper_file columns column Hin.
    pose proof (matching_column_exists _ _ Hin) as Hne.
    unfold scan_column. rewrite Hin. simpl.
    destruct (filter _ columns) as [|m rest] eqn:E; [contradiction|].
    assert (Hm : In m (filter (fun column_output =>
                                 String.eqb (name column_output) (name column))
                              columns))
      by (rewrite E; left; reflexivity).
    apply filter_In in Hm. destruct Hm as [Hm1 Hm2].
    apply String.eqb_eq in Hm2.
    exists m. repeat split; auto.
    + intros H. apply properties_differ_false in H. rewrite H. reflexivity.
    + intros H. apply properties_differ_true in H. rewrite H. reflexivity.
  - intros file_a file_b schema table a b Hn Hp.
    assert (Hab : properties_differ a b = true)
      by (apply properties_differ_true; exact Hp).
    assert (Hba : properties_differ b a = true)
      by (rewrite properties_differ_sym; exact Hab).
    unfold one_column_file, scan, scan_file, scan_schemas, scan_tables,
      scan_columns, scan_column, dict_setdefault, dict_mem, tables_of,
      table_columns_of, name_in.
    repeat (simpl; rewrite <- ?Hn, ?String.eqb_refl).
    rewrite Hab, Hba. split; reflexivity.
Qed.

(** ** Idempotence of the scan *)

Lemma tables_of_absorb (output_dict : OutputDict) (r : Reading) (schema : string) :
  tables_of schema (absorb output_dict r)
  = match r with
    | SchemaSeen _ => tables_of schema output_dict
    | TableSeen schema' table' =>
        if String.eqb schema schema'
        then dict_modify [] table' (fun columns => columns)
                         (tables_of schema output_dict)
        else tables_of schema output_dict
    | ColumnSeen schema' table' column =>
        if String.eqb schema schema'
        then dict_modify [] table' (fun columns => add_column columns column)
                         (tables_of schema output_dict)
        else tables_of schema output_dict
    end.
Proof.
  change (tables_of schema (absorb output_dict r))
    with (get_or [] schema (absorb output_dict r)).
  change (tables_of schema output_dict) with (get_or [] schema output_dict).
  destruct r as [s'|s' t'|s' t' c]; simpl absorb; rewrite get_or_modify;
    destruct (String.eqb_spec schema s') as [->|]; reflexivity.
Qed.

Lemma dict_mem_absorb (output_dict : OutputDict) (r : Reading) (schema : string) :
  dict_mem schema output_dict = true ->
  dict_mem schema (absorb output_dict r) = true.
Proof.
  intros H. destruct r; simpl; rewrite dict_mem_modify, H; apply orb_true_r.
Qed.

Lemma dict_mem_tables_absorb (output_dict : OutputDict) (r : Reading)
    (schema table : string) :
  dict_mem table (tables_of schema output_dict) = true ->
  dict_mem table (tables_of schema (absorb output_dict r)) = true.
Proof.
  intros H. rewrite tables_of_absorb.
  destruct r as [s'|s' t'|s' t' c]; [exact H| |];
    (destruct (String.eqb schema s'); [|exact H]);
    rewrite dict_mem_modify, H; apply orb_true_r.
Qed.

Lemma name_in_absorb (output_dict : OutputDict) (r : Reading)
    (schema table n : string) :
  name_in n (map name (unified_columns output_dict schema table)) = true ->
  name_in n (map name (unified_columns (absorb output_dict r) schema table))
  = true.
Proof.
  rewrite !name_in_In. intros H.
  change (absorb output_dict r) with (fold_left absorb [r] output_dict).
  apply unified_names_absorbed. left. exact H.
Qed.

Lemma absorbed_fixed (output_dict : OutputDict) (r : Reading) :
  absorbed output_dict r -> absorb output_dict r = output_dict.
Proof.
  destruct r as [s|s t|s t c]; simpl.
  - intros Hs. apply dict_modify_fixed; auto.
  - intros [Hs Ht]. apply dict_modify_fixed; [exact Hs|].
    apply dict_modify_fixed; auto.
  - intros [Hs [Ht Hn]]. apply dict_modify_fixed; [exact Hs|].
    apply dict_modify_fixed; [exact Ht|].
    unfold add_column. unfold unified_columns, table_columns_of, tables_of in Hn.
    unfold get_or. rewrite Hn. reflexivity.
Qed.

Lemma absorbed_absorb (output_dict : OutputDict) (r : Reading) :
  absorbed (absorb output_dict r) r.
Proof.
  assert (Hs : forall s f, dict_mem s (dict_modify [] s f output_dict) = true).
  { intros s f. rewrite dict_mem_modify, String.eqb_refl. reflexivity. }
  destruct r as [s|s t|s t c]; cbn [absorbed].
  - apply Hs.
  - split; [apply Hs|].
    rewrite tables_of_absorb, String.eqb_refl, dict_mem_modify, String.eqb_refl.
    reflexivity.
  - split; [apply Hs|]. split.
    + rewrite tables_of_absorb, String.eqb_refl, dict_mem_modify,
        String.eqb_refl. reflexivity.
    + rewrite unified_columns_absorb, !String.eqb_refl. cbn [andb].
      apply name_in_In, In_names_add_column. right. reflexivity.
Qed.

Lemma absorbed_mono (output_dict : OutputDict) (r r' : Reading) :
  absorbed output_dict r -> absorbed (absorb output_dict r') r.
Proof.
  destruct r as [s|s t|s t c]; cbn [absorbed].
  - apply dict_mem_absorb.
  - intros [Hs Ht]. split; [apply dict_mem_absorb, Hs|].
    apply dict_mem_tables_absorb, Ht.
  - intros [Hs [Ht Hn]]. split; [apply dict_mem_absorb, Hs|]. split.
    + apply dict_mem_tables_absorb, Ht.
    + apply name_in_absorb, Hn.
Qed.

Lemma absorbed_fold_mono (r : Reading) (rs : list Reading) :
  forall output_dict,
    absorbed output_dict r -> absorbed (fold_left absorb rs output_dict) r.
Proof.
  induction rs as [|r' rs IH]; intros od H; cbn [fold_left]; [exact H|].
  apply IH, absorbed_mono, H.
Qed.

Lemma absorbed_all (rs : list Reading) :
  forall output_dict,
    Forall (absorbed (fold_left absorb rs output_dict)) rs.
Proof.
  induction rs as [|r rs IH]; intros od; cbn [fold_left]; constructor.
  - apply absorbed_fold_mono, absorbed_absorb.
  - apply IH.
Qed.

Lemma absorbed_fold_fixed (rs : list Reading) (output_dict : OutputDict) :
  Forall (absorbed output_dict) rs -> fold_left absorb rs output_dict = output_dict.
Proof.
  induction rs as [|r rs IH]; intros H; cbn [fold_left]; [reflexivity|].
  inversion H as [|? ? Hr Hrs]; subst.
  rewrite (absorbed_fixed _ _ Hr). apply IH, Hrs.
Qed.

(** C9. A file that has been scanned changes nothing when it is scanned
    again, at once or after other files: the unified schema is the one of the
    first scan, with no column added and none altered. *)
Theorem scan_idempotent (output_dict : OutputDict) (file : string * Database)
    (files : Directory) :
  fst (scan_file (fst (scan_file output_dict file)) file)
  = fst (scan_file output_dict file)
  /\ fst (scan output_dict (file :: files ++ [file]))
     = fst (scan output_dict (file :: files)).
Proof.
  split.
  - rewrite !scan_file_readings. apply absorbed_fold_fixed, absorbed_all.
  - rewrite !scan_readings. cbn [flat_map].
    rewrite flat_map_app. cbn [flat_map]. rewrite app_nil_r.
    rewrite app_assoc, fold_left_app.
    apply absorbed_fold_fixed.
    rewrite fold_left_app.
    apply Forall_forall. intros r Hr.
    apply absorbed_fold_mono.
    pose proof (absorbed_all (readings (snd file)) output_dict) as Hall.
    rewrite Forall_forall in Hall. apply Hall, Hr.
Qed.

(** ** Escaped names *)

Lemma double_dquotes_closed_inj (a : string) :
  forall b,
    double_dquotes a +++ String dquote EmptyString
    = double_dquotes b +++ String dquote EmptyString ->
    a = b.
Proof.
  induction a as [|c a IH]; intros [|c' b]; simpl; intros H.
  - reflexivity.
  - destruct (Ascii.eqb_spec c' dquote) as [->|Hc]; simpl in H.
    + discriminate.
    + injection H as H _. congruence.
  - destruct (Ascii.eqb_spec c dquote) as [->|Hc]; simpl in H.
    + discriminate.
    + injection H as H _. congruence.
  - destruct (Ascii.eqb_spec c dquote) as [->|Hc];
      destruct (Ascii.eqb_spec c' dquote) as [->|Hc']; simpl in H.
    + injection H as H. rewrite (IH _ H). reflexivity.
    + injection H as H _. congruence.
    + injection H as H _. congruence.
    + injection H as Hcc H. rewrite (IH _ H), Hcc. reflexivity.
Qed.

Lemma escaped_inj (a b : string) : escaped a = escaped b -> a = b.
Proof.
  unfold escaped. intros H. injection H as H.
  apply double_dquotes_closed_inj, H.
Qed.

Lemma escaped_eqb (a b : string) :
  String.eqb (escaped a) (escaped b) = String.eqb a b.
Proof.
  destruct (String.eqb_spec a b) as [->|Hab].
  - apply String.eqb_refl.
  - apply String.eqb_neq. intros H. apply Hab, escaped_inj, H.
Qed.

Lemma escape_name_some (identifier : string) :
  identifier <> EmptyString -> escape_name identifier = Some (escaped identifier).
Proof. destruct identifier; [congruence|reflexivity]. Qed.

Lemma length_zero_empty (s : string) :
  (0 <? String.length s)%nat = false <-> s = EmptyString.
Proof.
  destruct s; split; intros H; try reflexivity; cbn in H; discriminate.
Qed.

Lemma length_positive (s : string) :
  (0 <? String.length s)%nat = true <-> s <> EmptyString.
Proof.
  destruct s; split; intros H; try reflexivity; try discriminate.
  exfalso. apply H. reflexivity.
Qed.

Lemma differs_from_provenance_enabled (args : Args) (column : Column) :
  source_file_column_name args <> EmptyString ->
  differs_from_provenance args column
  = Some (negb (String.eqb (name column) (source_file_column_name args))).
Proof.
  intros H. unfold differs_from_provenance.
  rewrite (escape_name_some _ H), escaped_eqb. reflexivity.
Qed.

Lemma differs_from_provenance_disabled (args : Args) (column : Column) :
  source_file_column_name args = EmptyString ->
  differs_from_provenance args column = None.
Proof. intros H. unfold differs_from_provenance. rewrite H. reflexivity. Qed.

Lemma filter_length_name_in (n : string) (columns : list Column) :
  (List.length
     (filter (fun column => String.eqb (escaped (name column)) (escaped n))
             columns) <? 1)%nat
  = negb (name_in n (map name columns)).
Proof.
  rewrite (filter_ext _ (fun column => String.eqb (name column) n))
    by (intros c; apply escaped_eqb).
  induction columns as [|c columns IH]; simpl; [reflexivity|].
  rewrite (String.eqb_sym n (name c)).
  destruct (String.eqb (name c) n); simpl; [reflexivity|exact IH].
Qed.

Lemma provenance_missing_cases (args : Args) (columns : list Column) :
  provenance_missing args columns
  = (0 <? String.length (source_file_column_name args))%nat
    && negb (name_in (source_file_column_name args) (map name columns)).
Proof.
  unfold provenance_missing.
  destruct (source_file_column_name args) as [|c rest] eqn:E; [reflexivity|].
  cbn [escape_name]. rewrite filter_length_name_in. reflexivity.
Qed.

Lemma select_item_enabled (args : Args) (source_columns : list Column)
    (column : Column) :
  source_file_column_name args <> EmptyString ->
  select_item args source_columns column
  = Some (if String.eqb (name column) (source_file_column_name args)
          then EmptyString
          else if name_in (name column) (map name source_columns)
               then " " +++ escaped (name column) +++ ","
               else " NULL as " +++ escaped (name column) +++ ",").
Proof.
  intros H. unfold select_item, null_item.
  rewrite (differs_from_provenance_enabled _ _ H).
  destruct (String.eqb (name column) (source_file_column_name args));
    destruct (name_in (name column) (map name source_columns)); reflexivity.
Qed.

Lemma select_item_disabled (args : Args) (source_columns : list Column)
    (column : Column) :
  source_file_column_name args = EmptyString ->
  select_item args source_columns column = None.
Proof.
  intros H. unfold select_item, null_item.
  rewrite (differs_from_provenance_disabled _ _ H).
  destruct (name_in (name column) (map name source_columns)); reflexivity.
Qed.

(** ** Consistent name comparisons *)



(** ** The created tables *)

Lemma table_definition_nullable (args : Args) (columns : list Column) :
  Forall (fun column => nullability column = NULLABLE)
         (table_definition args columns).
Proof.
  unfold table_definition. apply Forall_forall. intros c Hc.
  apply in_map_iff in Hc. destruct Hc as [c' [<- _]]. reflexivity.
Qed.

Lemma move_file_creates_nothing (args : Args) (schema table s t : string)
    (definition d : list Column) (file : string * Database) :
  ~ In (CreateTable s t d) (move_file args schema table definition file).
Proof.
  destruct file as [hyper_file [|catalog]]; simpl.
  - intros [H|[H|[]]]; discriminate.
  - destruct (dict_get schema catalog) as [entries|];
      [destruct (dict_get table entries) as [source|];
       [destruct (build_query args hyper_file schema table definition source)
          as [query [|]]|]|];
      intros [H|[H|[]]]; discriminate.
Qed.

Lemma move_rows_created (args : Args) (files : Directory)
    (output_dict : OutputDict) (s t : string) (d : list Column) :
  In (CreateTable s t d) (move_rows args files output_dict) ->
  exists columns, d = table_definition args columns.
Proof.
  unfold move_rows. intros H.
  apply in_flat_map in H. destruct H as [[schema tables] [_ H]].
  apply in_flat_map in H. destruct H as [[table columns] [_ H]].
  simpl in H. destruct H as [H|H].
  - injection H as _ _ <-. exists columns. reflexivity.
  - apply in_flat_map in H. destruct H as [file [_ H]].
    exfalso. exact (move_file_creates_nothing _ _ _ _ _ _ _ _ H).
Qed.

Lemma created_definitions_In (events : list Event) (d : list Column) :
  In d (created_definitions events)
  -> exists s t, In (CreateTable s t d) events.
Proof.
  induction events as [|e events IH]; simpl; [intros []|].
  destruct e; simpl; try (intros H; destruct (IH H) as [s [t Hst]];
                          exists s, t; right; exact Hst).
  intros [<-|H].
  - eexists _, _. left. reflexivity.
  - destruct (IH H) as [s [t Hst]]. exists s, t. right. exact Hst.
Qed.

(** C4. Every column of every table the run creates is nullable, whatever
    the source files declare; the provenance column, appended as not
    nullable on line 122, is nullable in the table definition as well. *)
Theorem output_columns_nullable (args : Args) (files : Directory)
    (output_dict : OutputDict) :
  Forall (Forall (fun column => nullability column = NULLABLE))
         (created_definitions (move_rows args files output_dict))
  /\ nullability (provenance_column args) = NOT_NULLABLE
  /\ forall columns,
       provenance_missing args columns = true ->
       In (mkColumn (source_file_column_name args) TEXT NULLABLE None)
          (table_definition args columns).
Proof.
  split; [|split; [reflexivity|]].
  - apply Forall_forall. intros d Hd.
    apply created_definitions_In in Hd. destruct Hd as [s [t Hd]].
    apply move_rows_created in Hd. destruct Hd as [columns ->].
    apply table_definition_nullable.
  - intros columns H. unfold table_definition, with_provenance. rewrite H.
    rewrite map_app. apply in_or_app. right. left. reflexivity.
Qed.

(** ** A file whose scan failed *)

Lemma scan_file_log_error (output_dict : OutputDict) (file : string * Database) :
  scan_fails (snd file) = true ->
  In (ReadError (fst file)) (snd (scan_file output_dict file)).
Proof.
  destruct file as [hyper_file [|catalog]]; simpl; intros H.
  - left. reflexivity.
  - destruct (scan_schemas_readings hyper_file catalog output_dict) as [log ->].
    apply negb_true_iff in H. rewrite H. simpl.
    apply in_or_app. right. left. reflexivity.
Qed.

Lemma scan_log_error (files : Directory) (file : string * Database) :
  forall output_dict,
    In file files -> scan_fails (snd file) = true ->
    In (ReadError (fst file)) (snd (scan output_dict files)).
Proof.
  induction files as [|f rest IH]; intros od Hin Hf; [destruct Hin|].
  simpl. pose proof (scan_file_log_error od f) as Hlog.
  destruct (scan_file od f) as [od1 l1].
  specialize (IH od1). destruct (scan od1 rest) as [od2 l2]. simpl in *.
  apply in_or_app. destruct Hin as [->|Hin]; [left; auto|right; auto].
Qed.

Lemma flat_map_split {A B} (f : A -> list B) (x : A) (l : list A) :
  In x l -> exists before after, flat_map f l = before ++ f x ++ after.
Proof.
  intros Hin. apply in_split in Hin. destruct Hin as [l1 [l2 ->]].
  exists (flat_map f l1), (flat_map f l2).
  rewrite flat_map_app. reflexivity.
Qed.

Lemma move_rows_block (args : Args) (files : Directory)
    (output_dict : OutputDict) (schema table : string) (tables : TableDict)
    (columns : list Column) :
  In (schema, tables) output_dict -> In (table, columns) tables ->
  exists before after,
    move_rows args files output_dict
    = before ++ move_table args files schema (table, columns) ++ after.
Proof.
  intros Hs Ht. unfold move_rows.
  destruct (flat_map_split
              (fun schema_entry : string * TableDict =>
                 flat_map (move_table args files (fst schema_entry))
                          (snd schema_entry))
              (schema, tables) output_dict Hs) as [b1 [a1 ->]].
  cbn [fst snd].
  destruct (flat_map_split (move_table args files schema) (table, columns)
              tables Ht) as [b2 [a2 ->]].
  exists (b1 ++ b2), (a2 ++ a1). rewrite <- !app_assoc. reflexivity.
Qed.

Lemma move_file_connect (args : Args) (schema table : string)
    (definition : list Column) (file : string * Database) :
  exists outcome,
    move_file args schema table definition file = Connect (fst file) :: outcome
    /\ (snd file = Unreadable -> outcome = [ConnectFailed (fst file)]).
Proof.
  destruct file as [hyper_file database]. simpl.
  eexists. split; [reflexivity|]. intros ->. reflexivity.
Qed.

(** C7, as the code has it.  The error of a file whose scan fails is
    logged and the other files are scanned all the same; the file stays in
    the worklist, and the second phase connects to it again for every unified
    table: the events of the run hold, for every unified table, the events
    of that table, which hold, behind the creation of the table, the events
    of every file of the worklist, which begin with the connection to the
    file; a file that cannot be opened is reported there once more and
    nothing else is done with it. *)
Theorem failed_files_retried (args : Args) (directory : Directory) :
  let files := worklist args directory in
  (forall file,
      In file files -> scan_fails (snd file) = true ->
      In (ReadError (fst file)) (run_log args directory))
  /\ (forall file schema table column,
         In file files -> seen_in file schema table column ->
         In (name column)
            (map name (unified_columns (unified_schema args directory)
                                       schema table)))
  /\ (forall file schema tables table columns,
         In file files ->
         In (schema, tables) (unified_schema args directory) ->
         In (table, columns) tables ->
         (exists before after,
             run_events args directory
             = before ++ move_table args files schema (table, columns)
                      ++ after)
         /\ (exists before after,
                move_table args files schema (table, columns)
                = CreateTable schema table (table_definition args columns)
                  :: before
                     ++ move_file args schema table
                          (table_definition args columns) file
                     ++ after)
         /\ (exists outcome,
                move_file args schema table (table_definition args columns)
                          file
                = Connect (fst file) :: outcome
                /\ (snd file = Unreadable ->
                    outcome = [ConnectFailed (fst file)]))).
Proof.
  intros files. unfold run_log, unified_schema, run_events, run. fold files.
  pose proof (scan_log_error files) as Hlog.
  pose proof (scan_readings files []) as Hsup.
  destruct (scan [] files) as [od log] eqn:E. simpl in *.
  split; [|split].
  - intros file Hin Hf. specialize (Hlog file [] Hin Hf).
    rewrite E in Hlog. exact Hlog.
  - intros file schema table column Hin Hseen.
    rewrite Hsup. apply unified_names_absorbed. right.
    exists column. split; [|reflexivity].
    apply in_flat_map. exists file. auto.
  - intros file schema tables table columns Hin Hs Ht.
    split; [|split].
    + apply (move_rows_block args files od schema table tables columns Hs Ht).
    + destruct (flat_map_split
                  (move_file args schema table (table_definition args columns))
                  file files Hin) as [before [after Hsplit]].
      exists before, after. unfold move_table. rewrite Hsplit. reflexivity.
    + apply move_file_connect.
Qed.

(** C7, counterexample.  [bad.hyper] cannot be opened: the scan logs its
    error, and the second phase connects to it again. *)
Lemma failed_files_not_skipped :
  ~ failed_files_skipped default_args broken_directory.
Proof.
  intros H. apply (H "bad.hyper"); vm_compute; auto.
Qed.

(** ** Strings *)

Lemma append_assoc (a b c : string) : (a +++ b) +++ c = a +++ b +++ c.
Proof. induction a as [|x a IH]; simpl; [reflexivity|rewrite IH; reflexivity]. Qed.

Lemma append_nil_r (a : string) : a +++ EmptyString = a.
Proof. induction a as [|x a IH]; simpl; [reflexivity|rewrite IH; reflexivity]. Qed.

Lemma length_append (a b : string) :
  String.length (a +++ b) = String.length a + String.length b.
Proof. induction a as [|x a IH]; simpl; [reflexivity|rewrite IH; reflexivity]. Qed.

(** ** The provenance entry as it is written *)

Lemma contains_squote_app (a b : string) :
  contains_squote (a +++ b) = contains_squote a || contains_squote b.
Proof.
  induction a as [|c a IH]; simpl; [reflexivity|].
  rewrite IH, orb_assoc. reflexivity.
Qed.

Lemma identifier_char_not_squote (c : ascii) :
  identifier_char c = true -> Ascii.eqb c squote = false.
Proof.
  intros H. destruct (Ascii.eqb_spec c squote) as [->|]; [|reflexivity].
  vm_compute in H. discriminate.
Qed.

Lemma identifier_chars_no_squote (s : string) :
  identifier_chars s = true -> contains_squote s = false.
Proof.
  induction s as [|c s IH]; simpl; [reflexivity|].
  intros H. apply andb_true_iff in H. destruct H as [Hc Hs].
  rewrite (identifier_char_not_squote c Hc), (IH Hs). reflexivity.
Qed.

Lemma plain_identifier_no_squote (s : string) :
  plain_identifier s = true -> contains_squote s = false.
Proof.
  destruct s as [|c s]; [discriminate|].
  unfold plain_identifier. intros H. apply andb_true_iff in H.
  apply identifier_chars_no_squote, H.
Qed.

Lemma contains_squote_inside (a b : string) :
  contains_squote (a +++ String squote b) = true.
Proof.
  rewrite contains_squote_app. cbn [contains_squote].
  rewrite Ascii.eqb_refl. cbn [orb]. apply orb_true_r.
Qed.

Lemma split_at_squote (t : string) :
  forall h x y,
    contains_squote t = false -> contains_squote x = false ->
    t +++ String squote x = h +++ String squote y ->
    t = h /\ x = y.
Proof.
  induction t as [|c t IH]; intros [|c' h] x y Ht Hx H;
    cbn [String.append] in H;
    [injection H as H|injection H as Hc H|injection H as Hc H
    |injection H as Hc H].
  - auto.
  - subst x. rewrite contains_squote_inside in Hx. discriminate.
  - subst c. cbn [contains_squote] in Ht.
    rewrite Ascii.eqb_refl in Ht. discriminate.
  - subst c'. cbn [contains_squote] in Ht.
    apply orb_false_iff in Ht. destruct Ht as [_ Ht].
    destruct (IH h x y Ht Hx H) as [-> ->]. auto.
Qed.

Lemma append_cancel_r (a : string) :
  forall b c, a +++ c = b +++ c -> a = b.
Proof.
  induction a as [|x a IH]; intros [|y b] c H; simpl in H.
  - reflexivity.
  - exfalso. assert (Hl : String.length c = String.length (String y (b +++ c)))
      by (rewrite <- H; reflexivity).
    simpl in Hl. rewrite length_append in Hl. lia.
  - exfalso. assert (Hl : String.length (String x (a +++ c)) = String.length c)
      by (rewrite H; reflexivity).
    simpl in Hl. rewrite length_append in Hl. lia.
  - injection H as -> H. rewrite (IH _ _ H). reflexivity.
Qed.

Lemma harmless_literal_unique (hyper_file provenance text alias : string) :
  harmless (LiteralAs text alias) = true ->
  render (LiteralAs text alias)
  = " '" +++ hyper_file +++ "' as " +++ provenance +++ "," ->
  text = hyper_file /\ alias = provenance.
Proof.
  intros Hh H. simpl in Hh. apply andb_true_iff in Hh.
  destruct Hh as [Ht Ha]. apply negb_true_iff in Ht.
  apply plain_identifier_no_squote in Ha.
  cbn [render] in H.
  change (String " " (String squote
            (text +++ String squote (" as " +++ alias +++ ",")))
          = String " " (String squote
              (hyper_file +++ String squote (" as " +++ provenance +++ ","))))
    in H.
  injection H as H.
  apply split_at_squote in H; [|exact Ht|].
  - destruct H as [-> H]. split; [reflexivity|].
    simpl in H. injection H as H. apply append_cancel_r in H. exact H.
  - simpl. rewrite contains_squote_app, Ha. reflexivity.
Qed.

(** C10, as the code has it.  For an ordinary file and a provenance column
    that is switched on, the select entry is the file name between two single
    quotes, nothing in it escaped, under the column name as configured,
    nothing in it escaped either.  This text is the text of one harmless
    literal entry exactly when the file name holds no single quote and the
    column name is a plain identifier: with a quote in the file name or
    another kind of column name, what the engine reads is not the one
    literal that was meant. *)
Theorem provenance_literal_raw (args : Args) (hyper_file : string) :
  source_file_column_name args <> EmptyString ->
  hyper_file <> output_file args ->
  provenance_item args hyper_file
  = Some (" '" +++ hyper_file +++ "' as "
          +++ source_file_column_name args +++ ",")
  /\ ((exists text alias,
          harmless (LiteralAs text alias) = true
          /\ render (LiteralAs text alias)
             = " '" +++ hyper_file +++ "' as "
               +++ source_file_column_name args +++ ",")
      <-> contains_squote hyper_file = false
          /\ plain_identifier (source_file_column_name args) = true).
Proof.
  intros Hon Hfile. split.
  - unfold provenance_item. apply length_positive in Hon. rewrite Hon.
    apply String.eqb_neq in Hfile. rewrite Hfile. reflexivity.
  - split.
    + intros [text [alias [Hh Hr]]].
      destruct (harmless_literal_unique _ _ _ _ Hh Hr) as [-> ->].
      simpl in Hh. apply andb_true_iff in Hh. destruct Hh as [Ht Ha].
      apply negb_true_iff in Ht. auto.
    + intros [Hq Hp]. exists hyper_file, (source_file_column_name args).
      split; [|reflexivity]. simpl. rewrite Hq, Hp. reflexivity.
Qed.

Lemma provenance_literal_raw_witness :
  provenance_item default_args "a.hyper" = Some " 'a.hyper' as source_file,"
  /\ ((exists text alias,
          harmless (LiteralAs text alias) = true
          /\ render (LiteralAs text alias) = " 'a.hyper' as source_file,")
      <-> contains_squote "a.hyper" = false
          /\ plain_identifier "source_file" = true).
Proof.
  apply (provenance_literal_raw default_args "a.hyper").
  - discriminate.
  - discriminate.
Defined.

(** C10, counterexample.  The file name [a' as x, 'b.hyper] holds single
    quotes, and the query built for it is, letter by letter, the query over
    the three harmless entries [id], ['a' as x] and ['b.hyper' as
    source_file]: the text is well formed and has an item more than the
    table has columns.  The provenance name [a, 'b' as c] needs quoting, and
    the query built with it is likewise the query over three harmless
    entries. *)
Lemma raw_names_read_as_queries :
  ~ quoted_names_malformed /\ ~ unplain_names_malformed.
Proof.
  split.
  - intros H.
    apply (H default_args quoted_file "public" "sales"
             (table_definition default_args [id_column]) [id_column]
             (fst (build_query default_args quoted_file "public" "sales"
                     (table_definition default_args [id_column])
                     (Some [id_column])))
             eq_refl ltac:(discriminate) eq_refl
             [ColumnRef "id"; LiteralAs "a" "x";
              LiteralAs "b.hyper" "source_file"]).
    split; reflexivity.
  - intros H.
    apply (H odd_name_args "f.hyper" "public" "sales"
             (table_definition odd_name_args [id_column]) [id_column]
             (fst (build_query odd_name_args "f.hyper" "public" "sales"
                     (table_definition odd_name_args [id_column])
                     (Some [id_column])))
             ltac:(discriminate) eq_refl ltac:(discriminate) eq_refl
             [ColumnRef "id"; LiteralAs "f.hyper" "a"; LiteralAs "b" "c"]).
    split; reflexivity.
Qed.

(** ** The NULL placeholder *)




(** ** The query text and its select items *)

Lemma concat_render_app (ps qs : list Projection) :
  concat_render (ps ++ qs) = concat_render ps +++ concat_render qs.
Proof.
  induction ps as [|p ps IH]; simpl; [reflexivity|].
  rewrite IH, append_assoc. reflexivity.
Qed.

Lemma select_projection_enabled (args : Args) (source_columns : list Column)
    (column : Column) :
  source_file_column_name args <> EmptyString ->
  select_projection args source_columns column
  = Some (column_entry args source_columns column).
Proof.
  intros H. unfold select_projection, null_projection, column_entry.
  rewrite (differs_from_provenance_enabled _ _ H).
  destruct (String.eqb (name column) (source_file_column_name args));
    destruct (name_in (name column) (map name source_columns)); reflexivity.
Qed.

Lemma select_projection_disabled (args : Args) (source_columns : list Column)
    (column : Column) :
  source_file_column_name args = EmptyString ->
  select_projection args source_columns column = None.
Proof.
  intros H. unfold select_projection, null_projection.
  rewrite (differs_from_provenance_disabled _ _ H).
  destruct (name_in (name column) (map name source_columns)); reflexivity.
Qed.

Lemma select_item_render (args : Args) (source_columns : list Column)
    (column : Column) :
  source_file_column_name args <> EmptyString ->
  select_item args source_columns column
  = Some (concat_render (column_entry args source_columns column)).
Proof.
  intros H. rewrite (select_item_enabled _ _ _ H). unfold column_entry.
  destruct (String.eqb (name column) (source_file_column_name args));
    [reflexivity|].
  destruct (name_in (name column) (map name source_columns));
    cbn [concat_render render]; rewrite append_nil_r; reflexivity.
Qed.

Lemma provenance_item_render (args : Args) (hyper_file : string) :
  provenance_item args hyper_file
  = Some (concat_render (provenance_projection args hyper_file)).
Proof.
  unfold provenance_item, provenance_projection.
  destruct (0 <? String.length (source_file_column_name args))%nat eqn:E;
    [|reflexivity].
  apply length_positive in E. rewrite (escape_name_some _ E).
  destruct (negb (String.eqb hyper_file (output_file args)));
    cbn [concat_render render]; rewrite append_nil_r; reflexivity.
Qed.

Lemma select_entries_enabled (args : Args)
    (source_columns definition : list Column) :
  source_file_column_name args <> EmptyString ->
  forall entries,
    select_entries args (Some source_columns) definition entries
    = (entries ++ flat_map (column_entry args source_columns) definition, true).
Proof.
  intros H. induction definition as [|c definition IH]; intros entries;
    cbn [select_entries flat_map].
  - rewrite app_nil_r. reflexivity.
  - rewrite (select_projection_enabled _ _ _ H), IH, <- app_assoc.
    reflexivity.
Qed.

Lemma select_loop_enabled (args : Args)
    (source_columns definition : list Column) :
  source_file_column_name args <> EmptyString ->
  forall query,
    select_loop args (Some source_columns) definition query
    = (query +++ concat_render
                   (flat_map (column_entry args source_columns) definition),
       true).
Proof.
  intros H. induction definition as [|c definition IH]; intros query;
    cbn [select_loop flat_map].
  - cbn [concat_render]. rewrite append_nil_r. reflexivity.
  - rewrite (select_item_render _ _ _ H), IH, concat_render_app, append_assoc.
    reflexivity.
Qed.

Lemma select_entries_disabled (args : Args) (source : option (list Column))
    (column : Column) (rest : list Column) (entries : list Projection) :
  source_file_column_name args = EmptyString ->
  select_entries args source (column :: rest) entries = (entries, false).
Proof.
  intros H. cbn [select_entries].
  destruct source as [source_columns|]; [|reflexivity].
  rewrite (select_projection_disabled _ _ _ H). reflexivity.
Qed.

(** With a provenance name the loop runs to its end, and the entries are
    those of the columns and then the one of the file name. *)
Lemma projections_enabled (args : Args) (hyper_file : string)
    (definition source_columns : list Column) :
  source_file_column_name args <> EmptyString ->
  projections args hyper_file definition source_columns
  = flat_map (column_entry args source_columns) definition
    ++ provenance_projection args hyper_file.
Proof.
  intros H. unfold projections, built_entries.
  rewrite (select_entries_enabled _ _ _ H). reflexivity.
Qed.

Lemma query_finished_enabled (args : Args) (hyper_file : string)
    (definition source_columns : list Column) :
  source_file_column_name args <> EmptyString ->
  query_finished args hyper_file definition source_columns = true.
Proof.
  intros H. unfold query_finished, built_entries.
  rewrite (select_entries_enabled _ _ _ H). reflexivity.
Qed.

(** Without one the loop is left at its first column, with no entry. *)
Lemma projections_disabled (args : Args) (hyper_file : string)
    (definition source_columns : list Column) :
  source_file_column_name args = EmptyString ->
  projections args hyper_file definition source_columns = [].
Proof.
  intros H. unfold projections, built_entries.
  destruct definition as [|c definition].
  - cbn [select_entries]. unfold provenance_projection. rewrite H. reflexivity.
  - rewrite (select_entries_disabled _ _ _ _ _ H). reflexivity.
Qed.

(** The text of a finished query is the rendering of [projections]. *)
Lemma build_query_render (args : Args) (hyper_file schema table : string)
    (definition source_columns : list Column) :
  source_file_column_name args <> EmptyString ->
  build_query args hyper_file schema table definition (Some source_columns)
  = (drop_last ("SELECT " +++ concat_render
                  (projections args hyper_file definition source_columns))
     +++ " FROM " +++ escaped schema +++ "." +++ escaped table, true).
Proof.
  intros H. unfold build_query.
  rewrite (select_loop_enabled _ _ _ H), provenance_item_render.
  rewrite (projections_enabled _ _ _ _ H), concat_render_app, append_assoc.
  reflexivity.
Qed.

Lemma build_query_disabled (args : Args) (hyper_file schema table : string)
    (column : Column) (rest : list Column) (source : option (list Column)) :
  source_file_column_name args = EmptyString ->
  build_query args hyper_file schema table (column :: rest) source
  = ("SELECT ", false).
Proof.
  intros H. unfold build_query. cbn [select_loop].
  destruct source as [source_columns|]; [|reflexivity].
  rewrite (select_item_disabled _ _ _ H). reflexivity.
Qed.

Lemma column_entry_provenance (args : Args) (source_columns : list Column)
    (column : Column) :
  name column = source_file_column_name args ->
  column_entry args source_columns column = [].
Proof.
  intros H. unfold column_entry. rewrite H, String.eqb_refl. reflexivity.
Qed.

Lemma column_entry_name (args : Args) (source_columns : list Column)
    (column : Column) :
  map output_name (column_entry args source_columns column)
  = if negb (String.eqb (name column) (source_file_column_name args))
    then [name column] else [].
Proof.
  unfold column_entry.
  destruct (String.eqb (name column) (source_file_column_name args));
    destruct (name_in (name column) (map name source_columns)); reflexivity.
Qed.

Lemma column_entry_names (args : Args)
    (source_columns definition : list Column) :
  (forall column, In column definition ->
                  name column <> source_file_column_name args) ->
  map output_name (flat_map (column_entry args source_columns) definition)
  = map name definition.
Proof.
  induction definition as [|c definition IH]; intros H; simpl; [reflexivity|].
  rewrite map_app, IH by (intros c' Hc'; apply H; right; exact Hc').
  assert (Hc : name c <> source_file_column_name args)
    by (apply H; left; reflexivity).
  rewrite column_entry_name.
  apply String.eqb_neq in Hc. rewrite Hc. reflexivity.
Qed.



(** A file without the schema or the table is passed over. *)
Lemma move_file_table_absent (args : Args) (schema table hyper_file : string)
    (definition : list Column) (catalog : Catalog) :
  (dict_get schema catalog = None
   \/ exists entries,
        dict_get schema catalog = Some entries /\ dict_get table entries = None) ->
  move_file args schema table definition (hyper_file, Readable catalog)
  = [Connect hyper_file; TableAbsent hyper_file].
Proof.
  intros [H|[entries [H1 H2]]]; simpl.
  - rewrite H. reflexivity.
  - rewrite H1, H2. reflexivity.
Qed.

(** C3, at the failing input.  In append mode with [union.hyper] scanned
    before [west.hyper], the table definition has the provenance column in
    second place and the query for [west.hyper] has it in third place. *)
Theorem projection_order_broken :
  map name append_definition = ["id"; "source_file"; "region"]
  /\ map output_name
         (projections append_args "west.hyper" append_definition
                      [id_column; region_column])
     = ["id"; "region"; "source_file"]
  /\ In (Ingest "west.hyper"
           ("SELECT  " +++ escaped "id" +++ ", " +++ escaped "region"
            +++ ", 'west.hyper' as source_file FROM " +++ escaped "public"
            +++ "." +++ escaped "sales"))
        (run_events append_args append_directory).
Proof.
  split; [reflexivity|]. split; [reflexivity|].
  vm_compute. auto 10.
Qed.

(** C5, at the failing input.  The row of [west.hyper] is written with the
    value of [region] in the provenance column, and the row taken over from
    [union.hyper] with NULL there; both have their provenance value in the
    column [region]. *)
Theorem provenance_misplaced :
  ingested_value append_args "west.hyper" append_definition
                 [id_column; region_column] west_row "source_file"
  = Some (Text "EU")
  /\ ingested_value append_args "west.hyper" append_definition
                    [id_column; region_column] west_row "region"
     = Some (Text "west.hyper")
  /\ ingested_value append_args "union.hyper" append_definition
                    [id_column; source_file_column] union_row "source_file"
     = Some NULL
  /\ ingested_value append_args "union.hyper" append_definition
                    [id_column; source_file_column] union_row "region"
     = Some (Text "a.hyper").
Proof. repeat split; reflexivity. Qed.

Lemma seen_in_readable (hyper_file schema table : string) (column : Column)
    (catalog : Catalog) :
  fully_readable catalog ->
  seen_in (hyper_file, Readable catalog) schema table column
  <-> exists entries table_columns,
        In (schema, entries) catalog /\ In (table, Some table_columns) entries
        /\ In column table_columns.
Proof.
  intros Hall. unfold seen_in. simpl. split.
  - apply catalog_readings_columns.
  - intros [entries [tc [H1 [H2 H3]]]].
    eapply catalog_readings_readable; eauto.
Qed.

(** ** Provenance values when the query is aligned *)

Lemma eval_projections_app (source_columns : list Column) (row : list Value)
    (ps qs : list Projection) (values : list Value) :
  eval_projections source_columns row (ps ++ qs) = Some values ->
  exists vs ws,
    values = vs ++ ws /\ List.length vs = List.length ps
    /\ eval_projections source_columns row qs = Some ws.
Proof.
  revert values. induction ps as [|p ps IH]; intros values H.
  - exists [], values. auto.
  - simpl in H.
    destruct (eval_projection source_columns row p) as [v|]; [|discriminate].
    destruct (eval_projections source_columns row (ps ++ qs)) as [rest|] eqn:E;
      [|discriminate].
    injection H as <-. destruct (IH rest eq_refl) as [vs [ws [-> [Hl Hq]]]].
    exists (v :: vs), ws. simpl. auto.
Qed.

Lemma column_entry_length (args : Args)
    (source_columns definition : list Column) :
  (forall column, In column definition ->
                  name column <> source_file_column_name args) ->
  List.length (flat_map (column_entry args source_columns) definition)
  = List.length definition.
Proof.
  intros H.
  rewrite <- (length_map output_name), column_entry_names by exact H.
  apply length_map.
Qed.

Lemma index_of_last (n : string) (names : list string) :
  ~ In n names -> index_of n (names ++ [n]) = Some (List.length names).
Proof.
  induction names as [|m names IH]; simpl; intros H.
  - rewrite String.eqb_refl. reflexivity.
  - destruct (String.eqb_spec n m) as [->|Hnm]; [tauto|].
    rewrite IH by tauto. reflexivity.
Qed.

(** When the provenance column is the last column of the table definition,
    a row that is written has in it the file name, for an ordinary file, and
    the value it had in the earlier output, for the output file. *)
Lemma provenance_value_aligned (args : Args) (hyper_file : string)
    (source_columns columns : list Column) (last : Column)
    (row : list Value) (value : Value) :
  source_file_column_name args <> EmptyString ->
  name last = source_file_column_name args ->
  (forall column, In column columns ->
                  name column <> source_file_column_name args) ->
  ingested_value args hyper_file (columns ++ [last]) source_columns row
                 (source_file_column_name args)
  = Some value ->
  if String.eqb hyper_file (output_file args)
  then column_value (map name source_columns) row
                    (source_file_column_name args) = Some value
  else value = Text hyper_file.
Proof.
  intros Hon Hlast Hcols. unfold ingested_value.
  rewrite (query_finished_enabled _ _ _ _ Hon), (projections_enabled _ _ _ _ Hon).
  rewrite flat_map_app. cbn [flat_map].
  rewrite (column_entry_provenance _ _ _ Hlast), !app_nil_r.
  destruct (eval_projections _ _ _) as [values|] eqn:Heval; [|discriminate].
  apply eval_projections_app in Heval.
  destruct Heval as [vs [ws [-> [Hlen Hws]]]].
  rewrite column_entry_length in Hlen by exact Hcols.
  unfold inserted_value.
  destruct (row_fits _ _); [|discriminate].
  unfold column_value at 1.
  rewrite map_app. cbn [map]. rewrite Hlast, index_of_last.
  - rewrite length_map, <- Hlen, nth_error_app2, Nat.sub_diag by lia.
    unfold provenance_projection in Hws.
    apply length_positive in Hon. rewrite Hon in Hws.
    destruct (String.eqb hyper_file (output_file args));
      cbn [negb eval_projections] in Hws.
    + destruct (eval_projection _ _ _) as [v|] eqn:Ev; [|discriminate].
      injection Hws as <-. cbn [nth_error]. intros Hv. injection Hv as <-.
      unfold eval_projection in Ev.
      destruct (harmless _); [exact Ev|discriminate].
    + destruct (eval_projection _ _ _) as [v|] eqn:Ev; [|discriminate].
      injection Hws as <-. cbn [nth_error]. intros Hv. injection Hv as <-.
      unfold eval_projection in Ev.
      destruct (harmless _); [|discriminate].
      injection Ev as <-. reflexivity.
  - intros Hin. apply in_map_iff in Hin. destruct Hin as [c [Hn Hc]].
    exact (Hcols c Hc Hn).
Qed.

(** ** The select list in general *)

Lemma output_names_of_projections (args : Args) (hyper_file : string)
    (definition source_columns : list Column) :
  map output_name (projections args hyper_file definition source_columns)
  = if (0 <? String.length (source_file_column_name args))%nat
    then filter (fun n => negb (String.eqb n (source_file_column_name args)))
                (map name definition)
         ++ [source_file_column_name args]
    else [].
Proof.
  destruct (0 <? String.length (source_file_column_name args))%nat eqn:E.
  - pose proof E as Hon. apply length_positive in Hon.
    rewrite (projections_enabled _ _ _ _ Hon), map_app. f_equal.
    + induction definition as [|c definition IH]; simpl; [reflexivity|].
      rewrite map_app, IH, column_entry_name.
      destruct (negb (String.eqb (name c) (source_file_column_name args)));
        reflexivity.
    + unfold provenance_projection. rewrite E.
      destruct (negb (String.eqb hyper_file (output_file args))); reflexivity.
  - apply length_zero_empty in E.
    rewrite (projections_disabled _ _ _ _ E). reflexivity.
Qed.

Lemma plain_identifier_not_empty (s : string) :
  plain_identifier s = true -> s <> EmptyString.
Proof. destruct s; [discriminate|discriminate]. Qed.

Lemma column_entries_harmless (args : Args)
    (source_columns definition : list Column) :
  forallb harmless (flat_map (column_entry args source_columns) definition)
  = true.
Proof.
  induction definition as [|c definition IH]; [reflexivity|].
  cbn [flat_map]. rewrite forallb_app, IH, andb_true_r.
  unfold column_entry.
  destruct (String.eqb (name c) (source_file_column_name args));
    [reflexivity|].
  destruct (name_in (name c) (map name source_columns)); reflexivity.
Qed.

Lemma projections_harmless (args : Args) (hyper_file : string)
    (definition source_columns : list Column) :
  contains_squote hyper_file = false ->
  plain_identifier (source_file_column_name args) = true ->
  forallb harmless (projections args hyper_file definition source_columns)
  = true.
Proof.
  intros Hfile Hname.
  rewrite (projections_enabled _ _ _ _ (plain_identifier_not_empty _ Hname)).
  rewrite forallb_app, column_entries_harmless.
  unfold provenance_projection.
  destruct (0 <? String.length (source_file_column_name args))%nat;
    [|reflexivity].
  destruct (negb (String.eqb hyper_file (output_file args)));
    cbn [forallb harmless]; rewrite ?Hfile, Hname; reflexivity.
Qed.

(** X1. With a provenance name, lines 153-164 append one entry to the select
    list for every column of the table definition that is not called like
    the provenance column, in the order of the table definition, and then
    one under the provenance name: the provenance entry is always the last
    one.  With the empty provenance name they append none.  When the file
    name holds no single quote and the provenance name is a plain
    identifier, no entry can be read as anything else, so that the entries
    are the select items of the query. *)
Theorem projection_names (args : Args) (hyper_file : string)
    (definition source_columns : list Column) :
  map output_name (projections args hyper_file definition source_columns)
  = (if (0 <? String.length (source_file_column_name args))%nat
     then filter (fun n => negb (String.eqb n (source_file_column_name args)))
                 (map name definition)
          ++ [source_file_column_name args]
     else [])
  /\ (contains_squote hyper_file = false ->
      plain_identifier (source_file_column_name args) = true ->
      forallb harmless (projections args hyper_file definition source_columns)
      = true).
Proof.
  split; [apply output_names_of_projections|apply projections_harmless].
Qed.

Lemma drop_last_append (s : string) (c : ascii) :
  drop_last (s +++ String c EmptyString) = s.
Proof.
  induction s as [|a r IH]; [reflexivity|].
  change (String a r +++ String c EmptyString)
    with (String a (r +++ String c EmptyString)).
  destruct r as [|b r']; [reflexivity|].
  change (drop_last (String a (String b r' +++ String c EmptyString)))
    with (String a (drop_last (String b r' +++ String c EmptyString))).
  rewrite IH. reflexivity.
Qed.

Lemma render_comma (p : Projection) : exists body, render p = body +++ ",".
Proof.
  destruct p as [n|n|text alias|n alias]; cbn [render].
  - exists (" " +++ escaped n). rewrite append_assoc. reflexivity.
  - exists (" NULL as " +++ escaped n). rewrite append_assoc. reflexivity.
  - exists (" '" +++ text +++ "' as " +++ alias).
    rewrite !append_assoc. reflexivity.
  - exists (" " +++ escaped n +++ " as " +++ alias).
    rewrite !append_assoc. reflexivity.
Qed.

Lemma concat_render_comma (ps : list Projection) :
  ps <> [] -> exists body, concat_render ps = body +++ ",".
Proof.
  induction ps as [|p ps IH]; intros Hne; [congruence|].
  destruct ps as [|q ps].
  - destruct (render_comma p) as [body Hb]. exists body.
    simpl. rewrite append_nil_r. exact Hb.
  - destruct (IH ltac:(discriminate)) as [body Hb].
    exists (render p +++ body).
    change (concat_render (p :: q :: ps))
      with (render p +++ concat_render (q :: ps)).
    rewrite Hb, append_assoc. reflexivity.
Qed.

Lemma projections_not_empty (args : Args) (hyper_file : string)
    (definition source_columns : list Column) :
  source_file_column_name args <> EmptyString ->
  projections args hyper_file definition source_columns <> [].
Proof.
  intros Hon H.
  apply (f_equal (map output_name)) in H.
  rewrite output_names_of_projections in H.
  apply length_positive in Hon. rewrite Hon in H.
  apply (f_equal (@List.length string)) in H.
  rewrite length_app in H. simpl in H. lia.
Qed.

(** X2. With a provenance name and a source table whose definition can be
    read, lines 152-167 are left at their end, and the text of the query is
    [SELECT], the select entries with the comma after the last one taken
    off, and the [FROM] clause with the escaped schema and table names. *)
Theorem query_text (args : Args) (hyper_file schema table : string)
    (definition source_columns : list Column) :
  source_file_column_name args <> EmptyString ->
  exists body,
    concat_render (projections args hyper_file definition source_columns)
    = body +++ ","
    /\ build_query args hyper_file schema table definition
                   (Some source_columns)
       = ("SELECT " +++ body +++ " FROM " +++ escaped schema +++ "."
          +++ escaped table, true).
Proof.
  intros Hon. rewrite (build_query_render _ _ _ _ _ _ Hon).
  destruct (concat_render_comma _ (projections_not_empty args hyper_file
                                     definition source_columns Hon))
    as [body Hb].
  exists body. split; [exact Hb|].
  rewrite Hb.
  change ("SELECT " +++ body +++ ",")
    with ("SELECT " +++ body +++ String ","%char EmptyString).
  rewrite <- (append_assoc "SELECT " body), drop_last_append.
  rewrite append_assoc. reflexivity.
Qed.

Lemma query_text_witness :
  exists body,
    concat_render (projections default_args "a.hyper" [id_column] [id_column])
    = body +++ ","
    /\ build_query default_args "a.hyper" "public" "sales" [id_column]
                   (Some [id_column])
       = ("SELECT " +++ body +++ " FROM " +++ escaped "public" +++ "."
          +++ escaped "sales", true).
Proof.
  apply (query_text default_args "a.hyper" "public" "sales"
                    [id_column] [id_column]).
  discriminate.
Defined.

(** ** When the query and the table definition agree *)






(** ** The second phase as a whole *)

(** X5. A file of the worklist is passed over for a table, with nothing
    but the note that the table is absent, exactly when its catalog lacks
    the schema or the schema lacks the table. *)
Theorem table_absent_iff (args : Args) (schema table hyper_file : string)
    (definition : list Column) (catalog : Catalog) :
  move_file args schema table definition (hyper_file, Readable catalog)
  = [Connect hyper_file; TableAbsent hyper_file]
  <-> dict_get schema catalog = None
      \/ exists entries,
           dict_get schema catalog = Some entries
           /\ dict_get table entries = None.
Proof.
  simpl. destruct (dict_get schema catalog) as [entries|].
  - destruct (dict_get table entries) as [source|] eqn:E.
    + destruct (build_query args hyper_file schema table definition source)
        as [query [|]];
        (split; [discriminate|]);
        intros [H|[entries' [H1 H2]]]; try discriminate;
        injection H1 as <-; congruence.
    + split; [|reflexivity]. intros _. right. exists entries. auto.
  - split; [auto|reflexivity].
Qed.

Lemma created_definitions_app (xs ys : list Event) :
  created_definitions (xs ++ ys)
  = created_definitions xs ++ created_definitions ys.
Proof.
  induction xs as [|e xs IH]; simpl; [reflexivity|].
  destruct e; simpl; rewrite IH; reflexivity.
Qed.

Lemma created_definitions_move_files (args : Args) (schema table : string)
    (definition : list Column) (files : Directory) :
  created_definitions
    (flat_map (move_file args schema table definition) files) = [].
Proof.
  induction files as [|[hyper_file database] files IH]; [reflexivity|].
  cbn [flat_map]. rewrite created_definitions_app, IH, app_nil_r.
  destruct database as [|catalog]; simpl; [reflexivity|].
  destruct (dict_get schema catalog) as [entries|]; [|reflexivity].
  destruct (dict_get table entries) as [source|]; [|reflexivity].
  destruct (build_query args hyper_file schema table definition source)
    as [query [|]]; reflexivity.
Qed.

Lemma created_definitions_move_rows (args : Args) (files : Directory)
    (output_dict : OutputDict) :
  created_definitions (move_rows args files output_dict)
  = map (table_definition args) (unified_tables output_dict).
Proof.
  unfold move_rows, unified_tables.
  induction output_dict as [|[schema tables] rest IH]; [reflexivity|].
  cbn [flat_map fst snd]. rewrite created_definitions_app, map_app, IH.
  f_equal. clear IH.
  induction tables as [|[table columns] tables IH]; [reflexivity|].
  cbn [flat_map map snd]. rewrite created_definitions_app, IH.
  simpl. rewrite created_definitions_move_files. reflexivity.
Qed.

(** X6. The second phase creates one table for every table of
    [output_dict], in the order of [output_dict], each with the table
    definition of its unified columns; the source files add no table. *)
Theorem created_tables_in_order (args : Args) (files : Directory)
    (output_dict : OutputDict) :
  created_definitions (move_rows args files output_dict)
  = map (table_definition args) (unified_tables output_dict).
Proof. apply created_definitions_move_rows. Qed.

Lemma connections_app (xs ys : list Event) :
  connections (xs ++ ys) = connections xs + connections ys.
Proof. unfold connections. rewrite filter_app, length_app. reflexivity. Qed.

Lemma connections_move_files (args : Args) (schema table : string)
    (definition : list Column) (files : Directory) :
  connections (flat_map (move_file args schema table definition) files)
  = List.length files.
Proof.
  induction files as [|[hyper_file database] files IH]; [reflexivity|].
  cbn [flat_map]. rewrite connections_app, IH.
  cbn [List.length]. f_equal.
  destruct database as [|catalog]; simpl; [reflexivity|].
  destruct (dict_get schema catalog) as [entries|]; [|reflexivity].
  destruct (dict_get table entries) as [source|]; [|reflexivity].
  destruct (build_query args hyper_file schema table definition source)
    as [query [|]]; reflexivity.
Qed.

(** X7. The second phase opens a connection to every file of the worklist
    once for every unified table, whether the file has the table or not and
    whether it can be opened or not: as many connections as there are tables
    times files. *)
Theorem connections_per_table (args : Args) (files : Directory)
    (output_dict : OutputDict) :
  connections (move_rows args files output_dict)
  = List.length (unified_tables output_dict) * List.length files.
Proof.
  unfold move_rows, unified_tables.
  induction output_dict as [|[schema tables] rest IH]; [reflexivity|].
  cbn [flat_map fst snd]. rewrite connections_app, length_app, IH.
  rewrite Nat.mul_add_distr_r. f_equal. clear IH.
  induction tables as [|[table columns] tables IH]; [reflexivity|].
  cbn [flat_map map snd List.length]. rewrite connections_app, IH.
  unfold move_table.
  change (connections (CreateTable schema table (table_definition args columns)
                         :: ?l)) with (connections l).
  cbn [Nat.mul]. f_equal.
  apply (connections_move_files args schema table
           (table_definition args columns) files).
Qed.

(** ** More on the scan *)

(** X8. A file that cannot be opened leaves the unified schema as the
    scan of the other files makes it, wherever the file stands in the
    worklist. *)
Theorem unreadable_file_ignored (output_dict : OutputDict)
    (before after : Directory) (hyper_file : string) :
  fst (scan output_dict (before ++ (hyper_file, Unreadable) :: after))
  = fst (scan output_dict (before ++ after)).
Proof.
  rewrite !scan_readings, !flat_map_app. reflexivity.
Qed.

Lemma add_column_grows (columns : list Column) (column : Column) :
  exists more,
    add_column columns column = columns ++ more
    /\ forall c, In c more -> c = column.
Proof.
  unfold add_column. destruct (name_in _ _).
  - exists []. rewrite app_nil_r. split; [reflexivity|intros c []].
  - exists [column]. split; [reflexivity|].
    intros c [<-|[]]. reflexivity.
Qed.

Lemma unified_columns_fold_grow (schema table : string) (rs : list Reading) :
  forall output_dict, exists more,
    unified_columns (fold_left absorb rs output_dict) schema table
    = unified_columns output_dict schema table ++ more
    /\ forall c, In c more -> In (ColumnSeen schema table c) rs.
Proof.
  induction rs as [|r rs IH]; intros od; cbn [fold_left].
  - exists []. rewrite app_nil_r. split; [reflexivity|intros c []].
  - destruct (IH (absorb od r)) as [more [Heq Hmore]].
    rewrite Heq, unified_columns_absorb.
    assert (Hskip : exists more0,
               unified_columns od schema table ++ more
               = unified_columns od schema table ++ more0
               /\ forall c, In c more0 ->
                            In (ColumnSeen schema table c) (r :: rs)).
    { exists more. split; [reflexivity|]. intros c Hc. right. auto. }
    destruct r as [s'|s' t'|s' t' c0]; try exact Hskip.
    destruct (String.eqb_spec schema s') as [->|];
      [destruct (String.eqb_spec table t') as [->|]|]; cbn [andb];
      try exact Hskip.
    destruct (add_column_grows (unified_columns od s' t') c0)
      as [more0 [-> Hmore0]].
    exists (more0 ++ more). rewrite app_assoc. split; [reflexivity|].
    intros c Hc. apply in_app_or in Hc. destruct Hc as [Hc|Hc].
    + left. rewrite (Hmore0 c Hc). reflexivity.
    + right. auto.
Qed.

(** X9. The scan only appends: the unified columns of a table before the
    scan are, unchanged and in their order, the front of its unified
    columns after it, and every column behind them is a column read from a
    file of the worklist for that table, with the type, nullability and
    collation declared there. *)
Theorem unified_columns_grow (output_dict : OutputDict) (files : Directory)
    (schema table : string) :
  exists more,
    unified_columns (fst (scan output_dict files)) schema table
    = unified_columns output_dict schema table ++ more
    /\ forall column,
         In column more ->
         exists file, In file files /\ seen_in file schema table column.
Proof.
  rewrite scan_readings.
  destruct (unified_columns_fold_grow schema table
              (flat_map (fun file => readings (snd file)) files) output_dict)
    as [more [Heq Hmore]].
  exists more. split; [exact Heq|].
  intros column Hc. specialize (Hmore column Hc).
  apply in_flat_map in Hmore. exact Hmore.
Qed.

Lemma dict_mem_tables_fold (schema table : string) (rs : list Reading) :
  forall output_dict,
    dict_mem table (tables_of schema output_dict) = true ->
    dict_mem table (tables_of schema (fold_left absorb rs output_dict)) = true.
Proof.
  induction rs as [|r rs IH]; intros od H; cbn [fold_left]; [exact H|].
  apply IH, dict_mem_tables_absorb, H.
Qed.

(** X10. The scan removes no key: a schema of [output_dict] is still there
    after the scan, and so is a table of a schema.  A table that a file of
    the worklist lists is there after the scan, with its schema, also when
    its definition could not be read. *)
Theorem schema_keys_kept (output_dict : OutputDict) (files : Directory)
    (schema table : string) :
  (dict_mem schema output_dict = true ->
   dict_mem schema (fst (scan output_dict files)) = true)
  /\ (dict_mem table (tables_of schema output_dict) = true ->
      dict_mem table (tables_of schema (fst (scan output_dict files))) = true)
  /\ (forall file,
         In file files -> In (TableSeen schema table) (readings (snd file)) ->
         dict_mem schema (fst (scan output_dict files)) = true
         /\ dict_mem table (tables_of schema (fst (scan output_dict files)))
            = true).
Proof.
  rewrite scan_readings. split; [|split].
  - intros H.
    apply (absorbed_fold_mono (SchemaSeen schema)). exact H.
  - apply dict_mem_tables_fold.
  - intros file Hin Hseen.
    pose proof (absorbed_all (flat_map (fun file => readings (snd file)) files)
                  output_dict) as Hall.
    rewrite Forall_forall in Hall.
    apply (Hall (TableSeen schema table)).
    apply in_flat_map. exists file. auto.
Qed.

Lemma schema_keys_kept_witness :
  dict_mem "public" (fst (scan [] half_read_directory)) = true
  /\ dict_mem "sales" (tables_of "public" (fst (scan [] half_read_directory)))
     = true.
Proof.
  apply (proj2 (proj2 (schema_keys_kept [] half_read_directory
                                        "public" "sales"))
               ("a.hyper", Readable [("public", [("sales", None)])])).
  - left. reflexivity.
  - right. left. reflexivity.
Defined.

(** X11. The unified column names do not depend on the order of the
    worklist: two worklists of the same files give every table the same set
    of column names. *)
Theorem names_independent_of_order (files files' : Directory)
    (schema table n : string) :
  (forall file, In file files <-> In file files') ->
  In n (map name (unified_columns (fst (scan [] files)) schema table))
  <-> In n (map name (unified_columns (fst (scan [] files')) schema table)).
Proof.
  intros Hsame. rewrite !scan_readings, !unified_names_absorbed.
  split; (intros [H|[c [Hin Hn]]]; [left; exact H|right]);
    exists c; (split; [|exact Hn]);
    apply in_flat_map in Hin; destruct Hin as [file [Hf Hr]];
    apply in_flat_map; exists file; (split; [apply Hsame, Hf|exact Hr]).
Qed.

Lemma names_independent_of_order_witness :
  In "amount"
     (map name (unified_columns (fst (scan [] conflict_directory))
                                "public" "sales"))
  <-> In "amount"
         (map name (unified_columns (fst (scan [] (rev conflict_directory)))
                                    "public" "sales")).
Proof.
  apply (names_independent_of_order conflict_directory
                                    (rev conflict_directory)).
  intros file. apply in_rev.
Defined.

(** ** The log of the scan *)

Lemma scan_column_records (hyper_file : string) (columns : list Column)
    (column : Column) :
  Forall (scan_record hyper_file)
         (snd (fst (scan_column hyper_file columns column))).
Proof.
  unfold scan_column.
  destruct (negb (name_in (name column) (map name columns))); simpl;
    [constructor|].
  destruct (filter _ columns) as [|m rest] eqn:E; simpl; [constructor|].
  assert (Hm : In m (filter (fun column_output =>
                               String.eqb (name column_output) (name column))
                            columns))
    by (rewrite E; left; reflexivity).
  apply filter_In in Hm. destruct Hm as [_ Hm]. apply String.eqb_eq in Hm.
  destruct (properties_differ column m) eqn:Ed; simpl;
    repeat constructor; simpl; auto.
Qed.

Lemma scan_columns_records (hyper_file : string) (table_columns : list Column) :
  forall columns,
    Forall (scan_record hyper_file)
           (snd (fst (scan_columns hyper_file columns table_columns))).
Proof.
  induction table_columns as [|c rest IH]; intros columns; simpl;
    [constructor|].
  pose proof (scan_column_records hyper_file columns c) as Hc.
  destruct (scan_column hyper_file columns c) as [[columns1 log1] [|]];
    simpl in *; [|exact Hc].
  specialize (IH columns1).
  destruct (scan_columns hyper_file columns1 rest) as [[columns2 log2] ok].
  simpl in *. apply Forall_app. auto.
Qed.

Lemma scan_tables_records (hyper_file : string) (entries : list TableEntry) :
  forall tables,
    Forall (scan_record hyper_file)
           (snd (fst (scan_tables hyper_file tables entries))).
Proof.
  induction entries as [|[table [table_columns|]] rest IH]; intros tables;
    simpl; try constructor.
  set (tables1 := dict_setdefault table [] tables).
  pose proof (scan_columns_records hyper_file table_columns
                (table_columns_of table tables1)) as Hc.
  destruct (scan_columns hyper_file (table_columns_of table tables1)
                         table_columns) as [[columns log1] [|]];
    simpl in *; [|exact Hc].
  specialize (IH (dict_set table columns tables1)).
  destruct (scan_tables hyper_file (dict_set table columns tables1) rest)
    as [[tables2 log2] ok].
  simpl in *. apply Forall_app. auto.
Qed.

Lemma scan_schemas_records (hyper_file : string) (catalog : Catalog) :
  forall output_dict,
    Forall (scan_record hyper_file)
           (snd (fst (scan_schemas hyper_file output_dict catalog))).
Proof.
  induction catalog as [|[schema entries] rest IH]; intros od; simpl;
    [constructor|].
  set (od1 := dict_setdefault schema [] od).
  pose proof (scan_tables_records hyper_file entries (tables_of schema od1))
    as Ht.
  destruct (scan_tables hyper_file (tables_of schema od1) entries)
    as [[tables log1] [|]]; simpl in *; [|exact Ht].
  specialize (IH (dict_set schema tables od1)).
  destruct (scan_schemas hyper_file (dict_set schema tables od1) rest)
    as [[od2 log2] ok].
  simpl in *. apply Forall_app. auto.
Qed.

(** What the log of one file holds: the records of its scan and, last, the
    error of the file if its scan fails. *)
Lemma scan_file_log (output_dict : OutputDict) (file : string * Database) :
  exists records,
    Forall (scan_record (fst file)) records
    /\ snd (scan_file output_dict file)
       = records ++ (if scan_fails (snd file)
                     then [ReadError (fst file)] else []).
Proof.
  destruct file as [hyper_file [|catalog]]; simpl.
  - exists []. split; [constructor|reflexivity].
  - pose proof (scan_schemas_records hyper_file catalog output_dict) as Hr.
    destruct (scan_schemas_readings hyper_file catalog output_dict)
      as [log Hscan].
    rewrite Hscan in *. simpl in Hr. exists log. split; [exact Hr|].
    destruct (catalog_ok catalog); simpl; [rewrite app_nil_r|]; reflexivity.
Qed.

Lemma scan_log_In (files : Directory) (r : LogRecord) :
  forall output_dict,
    In r (snd (scan output_dict files)) ->
    exists file,
      In file files
      /\ (scan_record (fst file) r
          \/ (r = ReadError (fst file) /\ scan_fails (snd file) = true)).
Proof.
  induction files as [|file rest IH]; intros od Hin; simpl in Hin;
    [destruct Hin|].
  destruct (scan_file_log od file) as [records [Hrec Hlog]].
  destruct (scan_file od file) as [od1 log1].
  specialize (IH od1). destruct (scan od1 rest) as [od2 log2].
  simpl in *. subst log1.
  apply in_app_or in Hin. destruct Hin as [Hin|Hin].
  - exists file. split; [left; reflexivity|].
    apply in_app_or in Hin. destruct Hin as [Hin|Hin].
    + left. rewrite Forall_forall in Hrec. auto.
    + right. destruct (scan_fails (snd file)); [|destruct Hin].
      destruct Hin as [<-|[]]. auto.
  - destruct (IH Hin) as [file' [Hf Hr]]. exists file'. split; [right|]; auto.
Qed.

(** X13. The log of the scan holds the error of a file exactly when the
    file is in the worklist and cannot be opened or one of its table
    definitions cannot be read: a file that is read to its end logs no
    error. *)
Theorem read_errors_exact (output_dict : OutputDict) (files : Directory)
    (hyper_file : string) :
  In (ReadError hyper_file) (snd (scan output_dict files))
  <-> exists database,
        In (hyper_file, database) files /\ scan_fails database = true.
Proof.
  split.
  - intros Hin. apply scan_log_In in Hin.
    destruct Hin as [[hf database] [Hf [Hrec|[He Hfail]]]].
    + destruct Hrec.
    + injection He as ->. exists database. auto.
  - intros [database [Hf Hfail]].
    apply (scan_log_error files (hyper_file, database) output_dict Hf Hfail).
Qed.

(** ** Column names of the created tables *)

Lemma dict_get_In {V} (k : string) (v : V) (d : dict V) :
  dict_get k d = Some v -> exists k', In (k', v) d.
Proof.
  induction d as [|[k1 v1] d IH]; simpl; [discriminate|].
  destruct (String.eqb k k1).
  - intros H. injection H as <-. exists k1. left. reflexivity.
  - intros H. destruct (IH H) as [k' Hk']. exists k'. right. exact Hk'.
Qed.

Lemma Forall_dict_set {V} (Q : V -> Prop) (k : string) (v : V) (d : dict V) :
  Forall (fun entry => Q (snd entry)) d -> Q v ->
  Forall (fun entry => Q (snd entry)) (dict_set k v d).
Proof.
  intros Hd Hv.
  induction Hd as [|[k1 v1] rest Hhead Hrest IH]; simpl; [constructor|].
  destruct (String.eqb k k1); constructor; auto.
Qed.

Lemma Forall_dict_modify {V} (Q : V -> Prop) (d0 : V) (k : string)
    (f : V -> V) (d : dict V) :
  Forall (fun entry => Q (snd entry)) d -> Q d0 ->
  (forall v, Q v -> Q (f v)) ->
  Forall (fun entry => Q (snd entry)) (dict_modify d0 k f d).
Proof.
  intros Hd H0 Hf.
  assert (H1 : Forall (fun entry => Q (snd entry)) (dict_setdefault k d0 d)).
  { unfold dict_setdefault. destruct (dict_mem k d); [exact Hd|].
    apply Forall_app. split; [exact Hd|]. repeat constructor. exact H0. }
  assert (Hg : Q (get_or d0 k (dict_setdefault k d0 d))).
  { unfold get_or. destruct (dict_get k (dict_setdefault k d0 d)) as [v|] eqn:E;
      [|exact H0].
    destruct (dict_get_In _ _ _ E) as [k' Hk'].
    rewrite Forall_forall in H1. exact (H1 _ Hk'). }
  unfold dict_modify. apply Forall_dict_set; auto.
Qed.

Lemma names_unique_absorb (output_dict : OutputDict) (r : Reading) :
  names_unique output_dict -> names_unique (absorb output_dict r).
Proof.
  unfold names_unique. intros H.
  set (Qc := fun columns : list Column => NoDup (map name columns)).
  set (Qt := fun tables : TableDict =>
               Forall (fun entry : string * list Column => Qc (snd entry))
                      tables).
  assert (Ht : forall table f,
             (forall columns, Qc columns -> Qc (f columns)) ->
             forall tables, Qt tables -> Qt (dict_modify [] table f tables)).
  { intros table f Hf tables Htables.
    apply (Forall_dict_modify Qc); auto. constructor. }
  destruct r as [s|s t|s t c]; simpl;
    apply (Forall_dict_modify Qt); auto; try constructor.
  apply Ht. intros columns Hc. apply NoDup_names_add_column, Hc.
Qed.

Lemma names_unique_scan (files : Directory) :
  names_unique (fst (scan [] files)).
Proof.
  rewrite scan_readings.
  generalize (flat_map (fun file => readings (snd file)) files).
  intros rs.
  assert (H : names_unique []) by constructor.
  revert H. generalize (@nil (string * TableDict)).
  induction rs as [|r rs IH]; intros od H; cbn [fold_left]; [exact H|].
  apply IH, names_unique_absorb, H.
Qed.

Lemma table_definition_names_unique (args : Args) (columns : list Column) :
  NoDup (map name columns) -> NoDup (map name (table_definition args columns)).
Proof.
  intros Hnd. unfold table_definition. rewrite map_map. simpl.
  unfold with_provenance. rewrite provenance_missing_cases.
  destruct (0 <? String.length (source_file_column_name args))%nat;
    [|exact Hnd].
  destruct (name_in (source_file_column_name args) (map name columns)) eqn:E;
    [exact Hnd|].
  simpl. rewrite map_app. simpl.
  apply NoDup_app; [exact Hnd|repeat constructor; simpl; tauto|].
  intros x Hx [<-|[]].
  change (In (source_file_column_name args) (map name columns)) in Hx.
  apply name_in_In in Hx. congruence.
Qed.

(** X14. No table the run creates has two columns of the same name: the
    scan keeps the column names of every unified table distinct, and the
    provenance column is appended only where no column has its name. *)
Theorem created_names_unique (args : Args) (directory : Directory) :
  Forall (fun definition => NoDup (map name definition))
         (created_definitions (run_events args directory)).
Proof.
  unfold run_events, run.
  pose proof (names_unique_scan (worklist args directory)) as Hu.
  destruct (scan [] (worklist args directory)) as [od log]. simpl in *.
  rewrite created_definitions_move_rows.
  apply Forall_forall. intros definition Hd.
  apply in_map_iff in Hd. destruct Hd as [columns [<- Hc]].
  apply table_definition_names_unique.
  unfold unified_tables in Hc. apply in_flat_map in Hc.
  destruct Hc as [[schema tables] [Hs Ht]]. simpl in Ht.
  apply in_map_iff in Ht. destruct Ht as [[table cols] [<- Ht]].
  unfold names_unique in Hu. rewrite Forall_forall in Hu.
  specialize (Hu _ Hs). simpl in Hu. rewrite Forall_forall in Hu.
  exact (Hu _ Ht).
Qed.

(** ** The worklist and the output file *)

Lemma last_segment_from_plain (s : string) :
  forall acc, contains_dot s = false -> last_segment_from acc s = acc +++ s.
Proof.
  induction s as [|c r IH]; intros acc H; simpl.
  - rewrite append_nil_r. reflexivity.
  - simpl in H. apply orb_false_iff in H. destruct H as [Hc Hr].
    rewrite Hc, (IH _ Hr), append_assoc. reflexivity.
Qed.

Lemma last_segment_from_dot (stem ext : string) :
  forall acc,
    contains_dot ext = false ->
    last_segment_from acc (stem +++ String "."%char ext) = ext.
Proof.
  induction stem as [|c r IH]; intros acc H; simpl.
  - apply (last_segment_from_plain ext EmptyString H).
  - destruct (Ascii.eqb c "."%char); apply IH, H.
Qed.

(** X15. With [--preserve-output-file] the run writes to a temporary file
    whose name is what follows the last dot of the output file, followed by
    [_temp.hyper]: for an output file [stem.ext] it is [ext_temp.hyper]
    whatever the stem, and for an output file without a dot it is the whole
    name followed by [_temp.hyper]. *)
Theorem temp_output_name (args : Args) :
  preserve_output_file args = true ->
  (contains_dot (output_file args) = false ->
   run_output_file args = output_file args +++ "_temp.hyper")
  /\ (forall stem ext,
         output_file args = stem +++ "." +++ ext ->
         contains_dot ext = false ->
         run_output_file args = ext +++ "_temp.hyper").
Proof.
  intros Hp. unfold run_output_file, last_segment. rewrite Hp. split.
  - intros H. rewrite (last_segment_from_plain _ EmptyString H). reflexivity.
  - intros stem ext -> H.
    change (stem +++ "." +++ ext) with (stem +++ String "."%char ext).
    rewrite (last_segment_from_dot stem ext EmptyString H). reflexivity.
Qed.

Lemma temp_output_name_witness :
  run_output_file append_args = "hyper_temp.hyper".
Proof.
  apply (proj2 (temp_output_name append_args eq_refl) "union" "hyper").
  - reflexivity.
  - reflexivity.
Defined.

(** X16. Without [--preserve-output-file] no file of the worklist has the
    name of the output file, so the pass-through branch of line 164 is never
    taken: the provenance item of every file is the literal of its name. *)
Theorem replace_mode_literals (args : Args) (directory : Directory)
    (file : string * Database) :
  preserve_output_file args = false ->
  In file (worklist args directory) ->
  fst file <> output_file args
  /\ provenance_projection args (fst file)
     = if (0 <? String.length (source_file_column_name args))%nat
       then [LiteralAs (fst file) (source_file_column_name args)]
       else [].
Proof.
  intros Hp Hin. unfold worklist, run_output_file in Hin. rewrite Hp in Hin.
  apply filter_In in Hin. destruct Hin as [_ Hne].
  apply negb_true_iff in Hne.
  split; [apply String.eqb_neq, Hne|].
  unfold provenance_projection. rewrite Hne. reflexivity.
Qed.

Lemma replace_mode_literals_witness :
  "bad.hyper" <> "union.hyper"
  /\ provenance_projection default_args "bad.hyper"
     = [LiteralAs "bad.hyper" "source_file"].
Proof.
  apply (replace_mode_literals default_args broken_directory
                               ("bad.hyper", Unreadable)).
  - reflexivity.
  - left. reflexivity.
Defined.

(** ** The provenance column of the table definition *)

Lemma name_in_app (n : string) (xs ys : list string) :
  name_in n (xs ++ ys) = name_in n xs || name_in n ys.
Proof. unfold name_in. apply existsb_app. Qed.

Lemma with_provenance_cases (args : Args) (columns : list Column) :
  with_provenance args columns
  = if (0 <? String.length (source_file_column_name args))%nat
       && negb (name_in (source_file_column_name args) (map name columns))
    then columns ++ [provenance_column args]
    else columns.
Proof.
  unfold with_provenance. rewrite provenance_missing_cases. reflexivity.
Qed.

Lemma name_in_provenance_appended (args : Args) (columns : list Column) :
  name_in (source_file_column_name args)
          (map name (columns ++ [provenance_column args])) = true.
Proof.
  rewrite map_app, name_in_app. simpl.
  rewrite String.eqb_refl, orb_true_r. reflexivity.
Qed.

(** X18. The provenance column is appended once at most: appending it to
    columns that have it changes nothing.  The table definition has a column
    of its name exactly when it is switched on or a source file has such a
    column. *)
Theorem provenance_column_once (args : Args) (columns : list Column) :
  with_provenance args (with_provenance args columns)
  = with_provenance args columns
  /\ name_in (source_file_column_name args)
             (map name (table_definition args columns))
     = (0 <? String.length (source_file_column_name args))%nat
       || name_in (source_file_column_name args) (map name columns).
Proof.
  assert (Hnames : map name (table_definition args columns)
                   = map name (with_provenance args columns)).
  { unfold table_definition. rewrite map_map. reflexivity. }
  rewrite Hnames, (with_provenance_cases args columns).
  destruct (0 <? String.length (source_file_column_name args))%nat eqn:Eon;
    destruct (name_in (source_file_column_name args) (map name columns))
      eqn:Ein; cbn [andb negb orb].
  - rewrite with_provenance_cases, Ein, Eon. auto.
  - rewrite with_provenance_cases, name_in_provenance_appended, Eon. auto.
  - rewrite with_provenance_cases, Ein, Eon. auto.
  - rewrite with_provenance_cases, Ein, Eon. auto.
Qed.

(** ** The log of the scan, reading by reading *)

Lemma readings_log_app (hyper_file : string) (rs rs' : list Reading) :
  forall output_dict,
    readings_log hyper_file output_dict (rs ++ rs')
    = readings_log hyper_file output_dict rs
      ++ readings_log hyper_file (fold_left absorb rs output_dict) rs'.
Proof.
  induction rs as [|r rs IH]; intros od; cbn [app readings_log fold_left];
    [reflexivity|].
  rewrite IH, app_assoc. reflexivity.
Qed.

Lemma scan_columns_log (hyper_file schema table : string)
    (table_columns : list Column) :
  forall output_dict,
    snd (fst (scan_columns hyper_file
                (unified_columns output_dict schema table) table_columns))
    = readings_log hyper_file output_dict
        (map (ColumnSeen schema table) table_columns).
Proof.
  induction table_columns as [|c rest IH]; intros od; [reflexivity|].
  cbn [map readings_log reading_log scan_columns].
  destruct (scan_column_effect hyper_file (unified_columns od schema table) c)
    as [l1 Hc].
  rewrite Hc. cbn [fst snd].
  specialize (IH (absorb od (ColumnSeen schema table c))).
  rewrite unified_columns_absorb, !String.eqb_refl in IH. cbn [andb] in IH.
  destruct (scan_columns hyper_file
              (add_column (unified_columns od schema table) c) rest)
    as [[columns2 log2] ok].
  cbn [fst snd] in *. rewrite IH. reflexivity.
Qed.

Lemma scan_tables_log (hyper_file schema : string) (entries : list TableEntry) :
  forall output_dict,
    dict_mem schema output_dict = true ->
    snd (fst (scan_tables hyper_file (tables_of schema output_dict) entries))
    = readings_log hyper_file output_dict (fst (table_readings schema entries)).
Proof.
  induction entries as [|[table [table_columns|]] rest IH]; intros od Hs;
    [reflexivity| |reflexivity].
  cbn [scan_tables table_readings].
  destruct (table_readings schema rest) as [rs ok] eqn:Ers.
  cbn [fst readings_log reading_log app].
  set (tables1 := dict_setdefault table [] (tables_of schema od)).
  set (odT := absorb od (TableSeen schema table)).
  assert (HodT : odT = dict_set schema tables1 od)
    by (apply absorb_table, Hs).
  assert (HsT : dict_mem schema odT = true)
    by (rewrite HodT, dict_mem_set; exact Hs).
  assert (HtT : tables_of schema odT = tables1)
    by (rewrite HodT; apply tables_of_set, Hs).
  assert (Ht1 : dict_mem table tables1 = true)
    by (unfold tables1; rewrite dict_mem_setdefault, String.eqb_refl;
        reflexivity).
  assert (Hu : table_columns_of table tables1
               = unified_columns odT schema table)
    by (unfold unified_columns; rewrite HtT; reflexivity).
  rewrite Hu.
  pose proof (scan_columns_log hyper_file schema table table_columns odT)
    as Hlog.
  destruct (scan_columns_effect hyper_file table_columns
              (unified_columns odT schema table)) as [l1 Hc].
  rewrite Hc in *. cbn [fst snd] in Hlog.
  set (columns := fold_left add_column table_columns
                    (unified_columns odT schema table)).
  set (od1 := fold_left absorb (map (ColumnSeen schema table) table_columns)
                odT).
  assert (Hod1 : od1 = dict_set schema (dict_set table columns tables1) odT).
  { unfold od1. rewrite absorb_columns; [|exact HsT|rewrite HtT; exact Ht1].
    rewrite HtT. reflexivity. }
  assert (Hs1 : dict_mem schema od1 = true)
    by (rewrite Hod1, dict_mem_set; exact HsT).
  assert (Ht2 : tables_of schema od1 = dict_set table columns tables1)
    by (rewrite Hod1; apply tables_of_set, HsT).
  specialize (IH od1 Hs1). rewrite Ht2 in IH. cbn [fst] in IH.
  destruct (scan_tables hyper_file (dict_set table columns tables1) rest)
    as [[tables2 log2] ok2].
  cbn [fst snd] in *.
  rewrite readings_log_app. fold od1. rewrite Hlog, IH. reflexivity.
Qed.

Lemma scan_schemas_log (hyper_file : string) (catalog : Catalog) :
  forall output_dict,
    snd (fst (scan_schemas hyper_file output_dict catalog))
    = readings_log hyper_file output_dict (catalog_readings catalog).
Proof.
  induction catalog as [|[schema entries] rest IH]; intros od; [reflexivity|].
  cbn [scan_schemas catalog_readings].
  set (od1 := dict_setdefault schema [] od).
  assert (Hod1 : absorb od (SchemaSeen schema) = od1)
    by (simpl; apply dict_modify_id).
  assert (Hs1 : dict_mem schema od1 = true)
    by (unfold od1; rewrite dict_mem_setdefault, String.eqb_refl; reflexivity).
  pose proof (scan_tables_log hyper_file schema entries od1 Hs1) as Hlog.
  destruct (scan_tables_readings hyper_file schema entries od1 Hs1)
    as [tables [l1 [Hscan Hset]]].
  rewrite Hscan in *. cbn [fst snd] in Hlog.
  destruct (table_readings schema entries) as [rs ok] eqn:Ers.
  cbn [fst snd] in *.
  cbn [readings_log reading_log app]. rewrite Hod1, readings_log_app.
  destruct ok.
  - specialize (IH (dict_set schema tables od1)).
    destruct (scan_schemas hyper_file (dict_set schema tables od1) rest)
      as [[od2 log2] ok2].
    cbn [fst snd] in *. rewrite Hlog, IH, Hset. reflexivity.
  - cbn [fst snd readings_log]. rewrite app_nil_r. exact Hlog.
Qed.

Lemma scan_file_log_readings (output_dict : OutputDict)
    (file : string * Database) :
  snd (scan_file output_dict file)
  = readings_log (fst file) output_dict (readings (snd file))
    ++ (if scan_fails (snd file) then [ReadError (fst file)] else []).
Proof.
  destruct file as [hyper_file [|catalog]]; [reflexivity|].
  cbn [scan_file fst snd readings scan_fails].
  pose proof (scan_schemas_log hyper_file catalog output_dict) as Hlog.
  destruct (scan_schemas_readings hyper_file catalog output_dict)
    as [log Hscan].
  rewrite Hscan in *. cbn [fst snd] in Hlog. subst log.
  destruct (catalog_ok catalog); cbn [negb snd];
    [rewrite app_nil_r|]; reflexivity.
Qed.

Lemma scan_column_reported (hyper_file : string) (columns : list Column)
    (column : Column) :
  exists existing,
    In existing (add_column columns column)
    /\ name existing = name column
    /\ (properties column = properties existing
        \/ In (ConflictWarning hyper_file column existing)
              (snd (fst (scan_column hyper_file columns column)))).
Proof.
  unfold scan_column, add_column.
  destruct (name_in (name column) (map name columns)) eqn:E; cbn [negb].
  - pose proof (matching_column_exists _ _ E) as Hne.
    destruct (filter _ columns) as [|m rest] eqn:Ef; [contradiction|].
    assert (Hm : In m (filter (fun column_output =>
                                 String.eqb (name column_output) (name column))
                              columns))
      by (rewrite Ef; left; reflexivity).
    apply filter_In in Hm. destruct Hm as [Hm1 Hm2].
    apply String.eqb_eq in Hm2.
    exists m. split; [exact Hm1|]. split; [exact Hm2|].
    destruct (properties_differ column m) eqn:Ed.
    + right. left. reflexivity.
    + left. apply properties_differ_false, Ed.
  - exists column. split; [apply in_or_app; right; left; reflexivity|].
    split; [reflexivity|left; reflexivity].
Qed.

Lemma In_unified_fold (schema table : string) (e : Column) (rs : list Reading)
    (output_dict : OutputDict) :
  In e (unified_columns output_dict schema table) ->
  In e (unified_columns (fold_left absorb rs output_dict) schema table).
Proof.
  intros H.
  destruct (unified_columns_fold_grow schema table rs output_dict)
    as [more [-> _]].
  apply in_or_app. left. exact H.
Qed.

Lemma reading_reported (hyper_file schema table : string) (column : Column)
    (rs : list Reading) :
  forall output_dict,
    In (ColumnSeen schema table column) rs ->
    exists existing,
      In existing (unified_columns (fold_left absorb rs output_dict)
                                   schema table)
      /\ name existing = name column
      /\ (properties column = properties existing
          \/ In (ConflictWarning hyper_file column existing)
                (readings_log hyper_file output_dict rs)).
Proof.
  induction rs as [|r rs IH]; intros od Hin; [destruct Hin|].
  cbn [fold_left readings_log]. destruct Hin as [->|Hin].
  - destruct (scan_column_reported hyper_file
                (unified_columns od schema table) column)
      as [e [He [Hn Hp]]].
    exists e. split; [|split; [exact Hn|]].
    + apply In_unified_fold.
      rewrite unified_columns_absorb, !String.eqb_refl. exact He.
    + destruct Hp as [Hp|Hp]; [left; exact Hp|right].
      apply in_or_app. left. exact Hp.
  - destruct (IH (absorb od r) Hin) as [e [He [Hn Hp]]].
    exists e. split; [exact He|]. split; [exact Hn|].
    destruct Hp as [Hp|Hp]; [left; exact Hp|right].
    apply in_or_app. right. exact Hp.
Qed.

(** X21. No disagreement goes unreported: every column the scan reads from
    a file of the worklist has, in the unified columns of its table, a column
    of its name, and either it has the type, nullability and collation of
    that column or the log holds a conflict of it, from that file, with that
    column. *)
Theorem conflicts_complete (files : Directory) :
  forall (output_dict : OutputDict) (file : string * Database)
         (schema table : string) (column : Column),
    In file files -> seen_in file schema table column ->
    exists existing,
      In existing (unified_columns (fst (scan output_dict files)) schema table)
      /\ name existing = name column
      /\ (properties column = properties existing
          \/ In (ConflictWarning (fst file) column existing)
                (snd (scan output_dict files))).
Proof.
  induction files as [|f rest IH]; intros od file schema table column Hin Hseen;
    [destruct Hin|].
  cbn [scan].
  pose proof (scan_file_readings od f) as Hod1.
  pose proof (scan_file_log_readings od f) as Hl1.
  destruct (scan_file od f) as [od1 l1]. cbn [fst snd] in Hod1, Hl1.
  pose proof (scan_readings rest od1) as Hod2.
  specialize (IH od1).
  destruct (scan od1 rest) as [od2 l2]. cbn [fst snd] in *.
  destruct Hin as [->|Hin].
  - destruct (reading_reported (fst file) schema table column
                (readings (snd file)) od Hseen) as [e [He [Hn Hp]]].
    exists e. split; [|split; [exact Hn|]].
    + rewrite Hod2. apply In_unified_fold. rewrite Hod1. exact He.
    + destruct Hp as [Hp|Hp]; [left; exact Hp|right].
      apply in_or_app. left. rewrite Hl1. apply in_or_app. left. exact Hp.
  - destruct (IH file schema table column Hin Hseen) as [e [He [Hn Hp]]].
    exists e. split; [exact He|]. split; [exact Hn|].
    destruct Hp as [Hp|Hp]; [left; exact Hp|right].
    apply in_or_app. right. exact Hp.
Qed.

Lemma conflicts_complete_witness :
  exists existing,
    In existing (unified_columns (fst (scan [] conflict_directory))
                                 "public" "sales")
    /\ name existing = name amount_text
    /\ (properties amount_text = properties existing
        \/ In (ConflictWarning "b.hyper" amount_text existing)
              (snd (scan [] conflict_directory))).
Proof.
  apply (conflicts_complete conflict_directory []
           ("b.hyper", one_column_file "public" "sales" amount_text)
           "public" "sales" amount_text).
  - right. left. reflexivity.
  - right. right. left. reflexivity.
Defined.

(** ** Conflicts in the log are real *)

Lemma scan_column_conflict (hyper_file hyper_file' : string)
    (columns : list Column) (column column' existing : Column) :
  In (ConflictWarning hyper_file' column' existing)
     (snd (fst (scan_column hyper_file columns column))) ->
  hyper_file' = hyper_file /\ column' = column /\ In existing columns
  /\ name existing = name column
  /\ properties_differ column existing = true.
Proof.
  unfold scan_column.
  destruct (negb (name_in (name column) (map name columns)));
    cbn [fst snd]; [intros []|].
  destruct (filter _ columns) as [|m rest] eqn:E; cbn [fst snd]; [intros []|].
  assert (Hm : In m (filter (fun column_output =>
                               String.eqb (name column_output) (name column))
                            columns))
    by (rewrite E; left; reflexivity).
  apply filter_In in Hm. destruct Hm as [Hm1 Hm2]. apply String.eqb_eq in Hm2.
  destruct (properties_differ column m) eqn:Ed; cbn [fst snd].
  - intros [H|[]]. injection H as <- <- <-. auto.
  - intros [H|[]]. discriminate.
Qed.

Lemma readings_log_conflict (hyper_file hyper_file' : string)
    (column existing : Column) (rs : list Reading) :
  forall output_dict,
    In (ConflictWarning hyper_file' column existing)
       (readings_log hyper_file output_dict rs) ->
    hyper_file' = hyper_file
    /\ name existing = name column
    /\ properties_differ column existing = true
    /\ exists schema table,
         In (ColumnSeen schema table column) rs
         /\ In existing (unified_columns (fold_left absorb rs output_dict)
                                         schema table).
Proof.
  induction rs as [|r rs IH]; intros od Hin; [destruct Hin|].
  cbn [readings_log fold_left] in *.
  apply in_app_or in Hin. destruct Hin as [Hin|Hin].
  - destruct r as [s|s t|s t c]; cbn [reading_log] in Hin;
      try (destruct Hin).
    apply scan_column_conflict in Hin.
    destruct Hin as [-> [-> [He [Hn Hp]]]].
    split; [reflexivity|]. split; [exact Hn|]. split; [exact Hp|].
    exists s, t. split; [left; reflexivity|].
    apply In_unified_fold.
    apply (In_unified_fold s t existing [ColumnSeen s t c] od He).
  - destruct (IH (absorb od r) Hin) as [Hf [Hn [Hp [s [t [Hs He]]]]]].
    split; [exact Hf|]. split; [exact Hn|]. split; [exact Hp|].
    exists s, t. split; [right; exact Hs|exact He].
Qed.

(** X12. A conflict in the log of the scan is a real one: it names a file
    of the worklist and a column the scan reads from a table of that file,
    and the column it is in conflict with is a unified column of that table,
    of the same name, whose type, nullability or collation is another. *)
Theorem conflict_records_sound (files : Directory) :
  forall (output_dict : OutputDict) (hyper_file : string)
         (column existing : Column),
    In (ConflictWarning hyper_file column existing)
       (snd (scan output_dict files)) ->
    name existing = name column
    /\ properties column <> properties existing
    /\ exists database schema table,
         In (hyper_file, database) files
         /\ seen_in (hyper_file, database) schema table column
         /\ In existing
               (unified_columns (fst (scan output_dict files)) schema table).
Proof.
  induction files as [|f rest IH]; intros od hyper_file column existing Hin;
    [destruct Hin|].
  cbn [scan] in *.
  pose proof (scan_file_readings od f) as Hod1.
  pose proof (scan_file_log_readings od f) as Hl1.
  destruct (scan_file od f) as [od1 l1]. cbn [fst snd] in Hod1, Hl1.
  pose proof (scan_readings rest od1) as Hod2.
  specialize (IH od1).
  destruct (scan od1 rest) as [od2 l2]. cbn [fst snd] in *.
  apply in_app_or in Hin. destruct Hin as [Hin|Hin].
  - rewrite Hl1 in Hin. apply in_app_or in Hin. destruct Hin as [Hin|Hin].
    + apply readings_log_conflict in Hin.
      destruct Hin as [-> [Hn [Hp [s [t [Hs He]]]]]].
      split; [exact Hn|]. split; [apply properties_differ_true, Hp|].
      exists (snd f), s, t. rewrite <- surjective_pairing.
      split; [left; reflexivity|]. split; [exact Hs|].
      rewrite Hod2. apply In_unified_fold. rewrite Hod1. exact He.
    + destruct (scan_fails (snd f)); [|destruct Hin].
      destruct Hin as [Hin|[]]. discriminate.
  - destruct (IH hyper_file column existing Hin)
      as [Hn [Hp [database [s [t [Hf [Hs He]]]]]]].
    split; [exact Hn|]. split; [exact Hp|].
    exists database, s, t. split; [right; exact Hf|]. split; assumption.
Qed.

Lemma conflict_records_sound_witness :
  name amount_double = name amount_text
  /\ properties amount_text <> properties amount_double
  /\ exists database schema table,
       In ("b.hyper", database) conflict_directory
       /\ seen_in ("b.hyper", database) schema table amount_text
       /\ In amount_double
             (unified_columns (fst (scan [] conflict_directory)) schema table).
Proof.
  apply (conflict_records_sound conflict_directory [] "b.hyper"
                                amount_text amount_double).
  vm_compute. left. reflexivity.
Defined.

(** ** The empty provenance name *)

(** X22. With the empty provenance name, which the help text of [-c] gives
    as the way to leave the provenance column out, no query is finished for
    a table that has a column: [THA.escape_name] raises on the empty name at
    the first column of the table definition, on line 154 or 157, and the
    handler of line 169 leaves [query] at [SELECT ], which line 175 hands to
    the engine. *)
Theorem provenance_off_no_query (args : Args) (schema table hyper_file : string)
    (definition : list Column) (catalog : Catalog)
    (entries : list TableEntry) (source : option (list Column)) :
  source_file_column_name args = EmptyString ->
  definition <> [] ->
  dict_get schema catalog = Some entries ->
  dict_get table entries = Some source ->
  move_file args schema table definition (hyper_file, Readable catalog)
  = [Connect hyper_file; QueryFailed hyper_file "SELECT "].
Proof.
  intros Hoff Hne Hs Ht. cbn [move_file]. rewrite Hs, Ht.
  destruct definition as [|c definition]; [congruence|].
  rewrite (build_query_disabled _ _ _ _ _ _ _ Hoff). reflexivity.
Qed.

Lemma provenance_off_no_query_witness :
  move_file off_args "public" "sales" (table_definition off_args [id_column])
            ("a.hyper", Readable [("public", [("sales", Some [id_column])])])
  = [Connect "a.hyper"; QueryFailed "a.hyper" "SELECT "].
Proof.
  apply (provenance_off_no_query off_args "public" "sales" "a.hyper"
           (table_definition off_args [id_column])
           [("public", [("sales", Some [id_column])])]
           [("sales", Some [id_column])] (Some [id_column])).
  - reflexivity.
  - discriminate.
  - reflexivity.
  - reflexivity.
Defined.
